(** * pympeg: the graph model and the command compiler

    A shallow embedding of [pympeg/_util.py] and [pympeg/_filter.py]:
    the node classes, the registry the builders append to, the partition
    of the registry by node class and the serialisation of the graph
    into one [ffmpeg] command line. *)

From Stdlib Require Import String Ascii List ZArith Lia Bool DecimalString.
From Stdlib Require Import Permutation.
Import ListNotations.

Set Warnings "-register-all".
Open Scope string_scope.

(** ** Python values, exceptions and dictionaries *)

Module Py.

(** The scalars that ['%s' % x] renders by their [str()]. *)
Inductive atom : Type :=
| ANone
| AInt (z : Z)
| AStr (s : string).

Definition str (a : atom) : string :=
  match a with
  | ANone => "None"
  | AInt z => NilZero.string_of_int (Z.to_int z)
  | AStr s => s
  end.

(** The exceptions of [_exceptions.py] that the builders raise, and the
    built-in ones an index, a key or an assertion can raise. *)
Inductive exn : Type :=
| TypeMissing (msg : string)
| FilterParamsMissing
| InputParamsMissing (msg : string)
| OutputNodeMissingInRun
| Error (prog out : string) (err : atom)
| IndexError
| KeyError (key : string)
| AssertionError.

Inductive result (A : Type) : Type :=
| Ok (a : A)
| Raise (e : exn).
Arguments Ok {A} a.
Arguments Raise {A} e.

Definition bind {A B} (m : result A) (k : A -> result B) : result B :=
  match m with
  | Ok a => k a
  | Raise e => Raise e
  end.

(** [for x in xs: acc = body acc x], stopping at the first exception. *)
Fixpoint for_ {A S} (xs : list A) (acc : S) (body : S -> A -> result S)
  : result S :=
  match xs with
  | [] => Ok acc
  | x :: xs' => bind (body acc x) (fun acc' => for_ xs' acc' body)
  end.

(** [range(a, b)] *)
Definition range (a b : nat) : list nat := seq a (b - a).

(** [xs[i]] *)
Definition index {A} (xs : list A) (i : nat) : result A :=
  match nth_error xs i with
  | Some x => Ok x
  | None => Raise IndexError
  end.

(** [xs.pop()]: the last element and the list without it. *)
Definition pop {A} (xs : list A) : result (A * list A) :=
  match rev xs with
  | [] => Raise IndexError
  | x :: r => Ok (x, rev r)
  end.

(** [xs.pop(0)]: the first element and the list without it. *)
Definition pop0 {A} (xs : list A) : result (A * list A) :=
  match xs with
  | [] => Raise IndexError
  | x :: r => Ok (x, r)
  end.

(** [xs.append(x)] *)
Definition append {A} (xs : list A) (x : A) : list A := (xs ++ [x])%list.

(** [''.join(xs)] *)
Definition join (xs : list string) : string := String.concat EmptyString xs.

(** [s.replace(old, new)] for a one-character [old]. *)
Fixpoint replace (old : ascii) (new : string) (s : string) : string :=
  match s with
  | EmptyString => EmptyString
  | String c s' =>
      if Ascii.eqb c old then new ++ replace old new s'
      else String c (replace old new s')
  end.

(** A [dict] with string keys, in insertion order. *)
Definition dict (V : Type) : Type := list (string * V).

Definition keys {V} (d : dict V) : list string := map fst d.

(** [k in d] *)
Fixpoint contains {V} (d : dict V) (k : string) : bool :=
  match d with
  | [] => false
  | (k', _) :: d' => if String.eqb k' k then true else contains d' k
  end.

(** [d[k]] *)
Fixpoint getitem {V} (d : dict V) (k : string) : result V :=
  match d with
  | [] => Raise (KeyError k)
  | (k', v) :: d' => if String.eqb k' k then Ok v else getitem d' k
  end.

(** The double quote character, as a one-character string. *)
Definition dquote : string := String (ascii_of_nat 34) EmptyString.

(** The character [;]. *)
Definition semicolon : ascii := ascii_of_nat 59.

End Py.

Notation "x <- m ;; k" := (Py.bind m (fun x => k))
  (at level 61, m at next level, right associativity).
Notation "' pat <- m ;; k" := (Py.bind m (fun x => match x with pat => k end))
  (at level 61, pat pattern, m at next level, right associativity).

(** ** The node classes ([_node.py]) *)

Module Label.
Record t : Type := Label { label : string }.
End Label.

Module InputNode.
(** [name] is the source path, [outputs] the stream reference that a
    [Label] built from this node carries. *)
Record t : Type := InputNode { name : Py.atom; outputs : string }.
End InputNode.

Module FilterNode.
Record t : Type := FilterNode {
  inputs : list Label.t;
  filter : string;
  params : Py.dict Py.atom;
  outputs : Label.t
}.

(** [node.add_input(label)] *)
Definition add_input (node : t) (l : Label.t) : t :=
  FilterNode (Py.append (inputs node) l) (filter node) (params node) (outputs node).

Definition bracket (l : Label.t) : string := "[" ++ Label.label l ++ "]".

(** Modelled from the spec: the [in_label] property of [_node.py] is
    missing from the sources; the statement grammar writes a label as
    its bracketed text and several labels concatenated. *)
Definition in_label (node : t) : string := Py.join (map bracket (inputs node)).

(** Modelled from the spec: the [out_label] property of [_node.py] is
    missing from the sources; the one output label, bracketed. *)
Definition out_label (node : t) : string := bracket (outputs node).

(** Modelled from the spec: [node[0]] is the declared output label. *)
Definition getitem0 (node : t) : Label.t := outputs node.
End FilterNode.

Module OutputNode.
Record t : Type := OutputNode { name : Py.atom; inputs : list Label.t }.

Definition add_input (node : t) (l : Label.t) : t :=
  OutputNode (name node) (Py.append (inputs node) l).
End OutputNode.

Module GlobalNode.
Record t : Type := GlobalNode {
  inputs : list Label.t;
  outputs : list Label.t;
  args : Py.atom
}.

Definition add_input (node : t) (l : Label.t) : t :=
  GlobalNode (Py.append (inputs node) l) (outputs node) (args node).

Definition add_output (node : t) (l : Label.t) : t :=
  GlobalNode (inputs node) (Py.append (outputs node) l) (args node).

(** Modelled from the spec: [node[0]] is the first declared output
    label; there is none to index when the list is empty. *)
Definition getitem0 (node : t) : Py.result Label.t := Py.index (outputs node) 0.
End GlobalNode.

Module OptionNode.
(** The third constructor argument of [OptionNode(tag, name, output)] is
    kept for bookkeeping only and read nowhere in the compiler; the
    record carries the two fields the command line prints. *)
Record t : Type := OptionNode { tag : Py.atom; name : Py.atom }.
End OptionNode.

(** An object of the registry: one of the five node classes. *)
Inductive node : Type :=
| NInput (n : InputNode.t)
| NFilter (n : FilterNode.t)
| NOutput (n : OutputNode.t)
| NGlobal (n : GlobalNode.t)
| NOption (n : OptionNode.t).

(** What a caller can hand to a builder. *)
Inductive value : Type :=
| VNone
| VInt (z : Z)
| VStr (s : string)
| VDict (d : Py.dict Py.atom)
| VList (l : list value)
| VLabel (l : Label.t)
| VNode (n : node).

(** ** [_util.py] *)

Module Util.
Import Py.

Definition get_str_from_params (params : dict atom) : result string :=
  let string_ : list string := [] in
  let keys := Py.keys params in
  let length := List.length keys in
  k0 <- index keys 0 ;;
  v0 <- getitem params k0 ;;
  let string_ := append string_ (k0 ++ "=" ++ str v0) in
  string_ <- for_ (range 1 length) string_
    (fun string_ i =>
       ki <- index keys i ;;
       vi <- getitem params ki ;;
       Ok (append string_ (":" ++ ki ++ "=" ++ str vi))) ;;
  Ok (join string_).

Definition get_str_from_filter (node : FilterNode.t) : result string :=
  let string_ : list string := [] in
  p <- get_str_from_params (FilterNode.params node) ;;
  let string_ := append string_
    (FilterNode.in_label node ++ " " ++ FilterNode.filter node ++ "=" ++ p
       ++ " " ++ FilterNode.out_label node ++ ";") in
  Ok (join string_).

(** Modelled from the spec: [get_str_from_global] is imported by
    [_filter.py] and missing from [_util.py]; a GlobalNode statement is
    its bracketed input labels concatenated, a space, the argument
    string, a space, its bracketed output labels concatenated, and [;]. *)
Definition get_str_from_global (node : GlobalNode.t) : string :=
  join (map FilterNode.bracket (GlobalNode.inputs node)) ++ " "
    ++ str (GlobalNode.args node) ++ " "
    ++ join (map FilterNode.bracket (GlobalNode.outputs node)) ++ ";".

(** [get_str_from_graph]: the nodes of [graph] are objects with the
    attributes [get_str_from_filter] reads; [fmt p] is what
    ['%s' % node.params] prints for the parameters [p] of the first and
    of the last node. *)
Definition get_str_from_graph (fmt : dict atom -> string)
    (graph : list FilterNode.t) : result string :=
  let string_ : list string := [] in
  '(output, graph) <- pop graph ;;
  let string_ := append string_ "ffmpeg -y" in
  '(first, graph) <- pop0 graph ;;
  let string_ := append string_ ("-i " ++ fmt (FilterNode.params first)) in
  let string_ := append string_ ("-filter_complex" ++ dquote) in
  string_ <- for_ graph string_
    (fun string_ node =>
       stmt <- get_str_from_filter node ;;
       Ok (append string_ stmt)) ;;
  let string_ := append string_ dquote in
  let string_ := append string_ (fmt (FilterNode.params output)) in
  Ok (String.concat " " string_).

End Util.

(** ** [_filter.py]: the compiler *)

Module Compiler.
Import Py.

Definition partition : Type :=
  (list InputNode.t * list OptionNode.t * list FilterNode.t
   * list GlobalNode.t * list OutputNode.t)%type.

(** One round of the loop of [_get_nodes_from_graph]: five independent
    [isinstance] tests, each appending to its own list. *)
Definition classify (acc : partition) (node_ : node) : partition :=
  let '(input_nodes, option_nodes, filter_nodes, global_nodes, output_nodes) := acc in
  let input_nodes :=
    match node_ with NInput n => append input_nodes n | _ => input_nodes end in
  let filter_nodes :=
    match node_ with NFilter n => append filter_nodes n | _ => filter_nodes end in
  let output_nodes :=
    match node_ with NOutput n => append output_nodes n | _ => output_nodes end in
  let global_nodes :=
    match node_ with NGlobal n => append global_nodes n | _ => global_nodes end in
  let option_nodes :=
    match node_ with NOption n => append option_nodes n | _ => option_nodes end in
  (input_nodes, option_nodes, filter_nodes, global_nodes, output_nodes).

Definition _get_nodes_from_graph (graph : list node) : result partition :=
  let '(input_nodes, option_nodes, filter_nodes, global_nodes, output_nodes) :=
    fold_left classify graph ([], [], [], [], []) in
  let node_len :=
    (length input_nodes + length option_nodes + length filter_nodes
     + length global_nodes + length output_nodes)%nat in
  if Nat.eqb node_len (length graph)
  then Ok (input_nodes, option_nodes, filter_nodes, global_nodes, output_nodes)
  else Raise AssertionError.

(** [" -i %s " % inp.name] *)
Definition input_segment (inp : InputNode.t) : string :=
  " -i " ++ str (InputNode.name inp) ++ " ".

(** [" %s " % out.name] *)
Definition name_segment (out : OutputNode.t) : string :=
  " " ++ str (OutputNode.name out) ++ " ".

(** [" %s %s" % (opt.tag, opt.name)] *)
Definition option_segment (opt : OptionNode.t) : string :=
  " " ++ str (OptionNode.tag opt) ++ " " ++ str (OptionNode.name opt).

(** [' -map <quote>[%s]<quote>' % inp.label] *)
Definition map_segment (inp : Label.t) : string :=
  " -map " ++ dquote ++ "[" ++ Label.label inp ++ "]" ++ dquote.

(** The list [result] of [_no_filter_command] before it is joined. *)
Definition _no_filter_result
    (input_nodes : list InputNode.t) (output_nodes : list OutputNode.t)
    (cmd : string) : list string :=
  let result : list string := [] in
  let result := append result cmd in
  let result := append result " -y" in
  let result :=
    fold_left (fun result inp => append result (input_segment inp))
      input_nodes result in
  let result :=
    fold_left (fun result out => append result (name_segment out))
      output_nodes result in
  result.

Definition _no_filter_command
    (input_nodes : list InputNode.t) (output_nodes : list OutputNode.t)
    (cmd : string) : string :=
  join (_no_filter_result input_nodes output_nodes cmd).

(** The filter path of [_get_command_from_graph], from
    [filter_nodes.pop()] on: the list [result] before it is joined. *)
Definition _filter_path_result (cmd : string) (p : partition)
  : result (list string) :=
  let '(input_nodes, option_nodes, filter_nodes, global_nodes, output_nodes) := p in
  let result : list string := [] in
  '(last_filter_node, filter_nodes) <- pop filter_nodes ;;
  let result := append result cmd in
  let result :=
    fold_left (fun result inp => append result (input_segment inp))
      input_nodes result in
  let result :=
    fold_left (fun result opt => append result (option_segment opt))
      option_nodes result in
  let result := append result (" -y -filter_complex " ++ dquote) in
  result <- for_ filter_nodes result
    (fun result filter_ =>
       stmt <- Util.get_str_from_filter filter_ ;;
       Ok (append result stmt)) ;;
  let result :=
    fold_left (fun result global_ =>
                 append result (Util.get_str_from_global global_))
      global_nodes result in
  stmt <- Util.get_str_from_filter last_filter_node ;;
  let result := append result (replace semicolon EmptyString stmt) in
  let result := append result dquote in
  let result :=
    fold_left (fun result out =>
      fold_left (fun result inp =>
                   let result := append result (map_segment inp) in
                   append result (name_segment out))
        (OutputNode.inputs out) result)
      output_nodes result in
  Ok result.

Definition _get_command_from_graph (graph : list node) (cmd : string)
  : result string :=
  '(input_nodes, option_nodes, filter_nodes, global_nodes, output_nodes)
    <- _get_nodes_from_graph graph ;;
  if Nat.eqb (length filter_nodes) 0
  then Ok (_no_filter_command input_nodes output_nodes "ffmpeg")
  else
    result <- _filter_path_result cmd
      (input_nodes, option_nodes, filter_nodes, global_nodes, output_nodes) ;;
    Ok (join result).

End Compiler.

(** ** [_filter.py]: the registry and the builders *)

(** What the program takes from outside: the stream reference an
    InputNode derives from its index, the letters [random.sample] draws,
    and the outcome of the external process for a command line. *)
Class Platform : Type := {
  stream_ref : nat -> string;
  sample : nat -> nat -> string;
  communicate : string -> string * Z
}.

Module Builder.
Import Py Compiler.

(** Modelled from the spec: the [Stream] class of [_builder.py] is
    missing from the sources; the registry is the ordered sequence of
    the nodes created so far and the running count of inputs. *)
Record Stream : Type := { nodes : list node; count : nat }.

Inductive event : Type :=
| GraphRead
| Popen (args : string).

(** The state the builders and [run] act on: the module-level stream
    [s], the number of random labels drawn, and the log of registry
    reads and process invocations. *)
Record World : Type := { s : Stream; draws : nat; trace : list event }.

Definition M (A : Type) : Type := World -> result A * World.

Definition ret {A} (a : A) : M A := fun w => (Ok a, w).

Definition raise {A} (e : exn) : M A := fun w => (Raise e, w).

Definition lift {A} (r : result A) : M A := fun w => (r, w).

Definition bindM {A B} (m : M A) (k : A -> M B) : M B :=
  fun w =>
    match m w with
    | (Ok a, w') => k a w'
    | (Raise e, w') => (Raise e, w')
    end.

Notation "x <~ m ;; k" := (bindM m (fun x => k))
  (at level 61, m at next level, right associativity).
Notation "' pat <~ m ;; k" := (bindM m (fun x => match x with pat => k end))
  (at level 61, pat pattern, m at next level, right associativity).

(** Modelled from the spec: [s.add(node)] appends [node] to the
    sequence and returns the stream; the input counter is advanced by
    the [.count += 1] that [input] applies to the returned stream. *)
Definition s_add (node_ : node) : M unit :=
  fun w =>
    (Ok tt, {| s := {| nodes := append (nodes (s w)) node_; count := count (s w) |};
               draws := draws w; trace := trace w |}).

(** [s.count] *)
Definition s_count : M nat := fun w => (Ok (count (s w)), w).

(** [s.count += 1] *)
Definition s_count_incr : M unit :=
  fun w =>
    (Ok tt, {| s := {| nodes := nodes (s w); count := count (s w) + 1 |};
               draws := draws w; trace := trace w |}).

(** Modelled from the spec: [s.graph()] reads the full ordered sequence
    and leaves it in place. *)
Definition s_graph : M (list node) :=
  fun w =>
    (Ok (nodes (s w)),
     {| s := s w; draws := draws w; trace := append (trace w) GraphRead |}).

Section WithPlatform.
Context {platform : Platform}.

(** [gen_label] of [_util.py]: the joined letters of the next draw of
    [random.sample]. *)
Definition gen_label (length : nat) : M string :=
  fun w =>
    (Ok (sample (draws w) length),
     {| s := s w; draws := draws w + 1; trace := trace w |}).

(** [Popen(args=command, ...)], [communicate()] and [poll()]: the
    captured output, no separate error stream ([stderr=STDOUT]) and the
    exit status. *)
Definition popen (command : string) : M (string * atom * Z) :=
  fun w =>
    let '(out, code) := communicate command in
    (Ok (out, ANone, code),
     {| s := s w; draws := draws w; trace := append (trace w) (Popen command) |}).

Definition isinstance_InputNode (v : value) : bool :=
  match v with VNode (NInput _) => true | _ => false end.
Definition isinstance_OptionNode (v : value) : bool :=
  match v with VNode (NOption _) => true | _ => false end.
Definition isinstance_FilterNode (v : value) : bool :=
  match v with VNode (NFilter _) => true | _ => false end.
Definition isinstance_GlobalNode (v : value) : bool :=
  match v with VNode (NGlobal _) => true | _ => false end.
Definition isinstance_OutputNode (v : value) : bool :=
  match v with VNode (NOutput _) => true | _ => false end.
Definition isinstance_Label (v : value) : bool :=
  match v with VLabel _ => true | _ => false end.
Definition isinstance_list (v : value) : bool :=
  match v with VList _ => true | _ => false end.

(** The loop body ends in [break]: only the first argument is looked at. *)
Definition _check_arg_type (args : list value) : bool :=
  let flag := false in
  match args with
  | [] => flag
  | arg_ :: _ =>
      if isinstance_InputNode arg_ || isinstance_OptionNode arg_
         || isinstance_FilterNode arg_ || isinstance_GlobalNode arg_
         || isinstance_Label arg_ || isinstance_list arg_
      then true
      else flag
  end.

Definition _get_label_param (value_ : value) : result Label.t :=
  match value_ with
  | VLabel l => Ok l
  | VStr s => Ok (Label.Label s)
  | VNode (NFilter n) => Ok (FilterNode.getitem0 n)
  | VNode (NInput n) => Ok (Label.Label (InputNode.outputs n))
  | VNode (NGlobal n) => GlobalNode.getitem0 n
  | _ => Raise (TypeMissing "Filter requires an filter or input type argument")
  end.

(** [for x in xs: node.add(_get_label_param(x))] when [v] is a list,
    [node.add(_get_label_param(v))] otherwise. *)
Definition add_labels {N} (add : N -> Label.t -> N) (node_ : N) (v : value)
  : result N :=
  match v with
  | VList xs =>
      for_ xs node_ (fun node_ x => l <- _get_label_param x ;; Ok (add node_ l))
  | _ => l <- _get_label_param v ;; Ok (add node_ l)
  end.

(** Modelled from the spec: [InputNode(name, count)] of [_node.py];
    the node keeps its name and the stream reference of its index. *)
Definition InputNode_init (name : atom) (count : nat) : InputNode.t :=
  InputNode.InputNode name (stream_ref count).

Definition input (args : list value) (name : atom) : M InputNode.t :=
  match name with
  | ANone => raise (InputParamsMissing "File name required in input function")
  | _ =>
      c <~ s_count ;;
      let node_ := InputNode_init name c in
      _ <~ s_add (NInput node_) ;;
      _ <~ s_count_incr ;;
      ret node_
  end.

(** Modelled from the spec: [Label()] of [_node.py] without a name is
    an auto-generated token of fixed length. *)
Definition Label_auto : M Label.t :=
  l <~ gen_label 5 ;; ret (Label.Label l).

(** Modelled from the spec: the [FilterNode] constructor of [_node.py],
    called with the keyword arguments of [filter]; a
    filter name and a non-empty parameter mapping are required, the
    output label is the one given or an auto-generated one, and the
    inputs are added afterwards. *)
Definition FilterNode_init (kwargs : dict value) : M FilterNode.t :=
  match getitem kwargs "filter_name", getitem kwargs "params" with
  | Ok (VStr name), Ok (VDict (p :: ps)) =>
      out <~ match getitem kwargs "outputs" with
             | Ok (VStr l) => ret (Label.Label l)
             | Ok (VLabel l) => ret l
             | _ => Label_auto
             end ;;
      ret (FilterNode.FilterNode [] name (p :: ps) out)
  | _, _ => raise FilterParamsMissing
  end.

Definition filter (args : list value) (kwargs : dict value) : M FilterNode.t :=
  if negb (_check_arg_type args)
  then raise (TypeMissing "Filter requires an filter or input type argument")
  else if Nat.eqb (length kwargs) 0
  then raise FilterParamsMissing
  else
    inputs <~ lift (if contains kwargs "inputs"
                    then getitem kwargs "inputs"
                    else index args 0) ;;
    filter_node <~ FilterNode_init kwargs ;;
    filter_node <~ lift (add_labels FilterNode.add_input filter_node inputs) ;;
    _ <~ s_add (NFilter filter_node) ;;
    ret filter_node.

(** [OutputNode(name=...)] starts without inputs. *)
Definition output (args : list value) (kwargs : dict atom)
  : M (option OutputNode.t) :=
  if negb (_check_arg_type args)
  then raise (TypeMissing "Output requires an filter or input type argument")
  else if negb (contains kwargs "name")
  then ret None
  else
    name <~ lift (getitem kwargs "name") ;;
    let node_ := OutputNode.OutputNode name [] in
    inputs <~ lift (index args 0) ;;
    node_ <~ lift (add_labels OutputNode.add_input node_ inputs) ;;
    _ <~ s_add (NOutput node_) ;;
    ret (Some node_).

Definition is_not_None (v : value) : bool :=
  match v with VNone => false | _ => true end.

(** [GlobalNode(args=args)] starts without inputs and outputs. *)
Definition arg (caller : value) (args : atom) (outputs inputs : value)
  : M GlobalNode.t :=
  let node_ := GlobalNode.GlobalNode [] [] args in
  node_ <~ lift (if is_not_None inputs
                 then add_labels GlobalNode.add_input node_ inputs
                 else add_labels GlobalNode.add_input node_ caller) ;;
  node_ <~ lift (add_labels GlobalNode.add_output node_ outputs) ;;
  _ <~ s_add (NGlobal node_) ;;
  ret node_.

Definition option_ (args : list value) (tag name : atom) (output : value)
  : M OptionNode.t :=
  let outputs : list Label.t := [] in
  outputs <~ lift (add_labels (@append Label.t) outputs output) ;;
  let node_ := OptionNode.OptionNode tag name in
  _ <~ s_add (NOption node_) ;;
  ret node_.

Definition run (caller : value) : M (string * atom) :=
  if negb (isinstance_OutputNode caller)
  then raise OutputNodeMissingInRun
  else
    graph <~ s_graph ;;
    command <~ lift (_get_command_from_graph graph "ffmpeg") ;;
    '(out, err, code) <~ popen command ;;
    if Z.eqb code 0
    then ret (out, err)
    else raise (Error "ffmpeg" out err).

Definition graph (args : list value) : M (list node) := s_graph.

End WithPlatform.

(** The registry at process start. *)
Definition world0 : World :=
  {| s := {| nodes := []; count := 0 |}; draws := 0; trace := [] |}.

End Builder.

(** ** Reference definitions the statements are written with *)

(** A platform to evaluate the builders on: input [k] is referred to as
    [k:v], every draw gives the same five letters, and the external
    process prints nothing and exits with status 0. *)
Definition demo_platform : Platform := {|
  stream_ref := fun k => NilZero.string_of_uint (Nat.to_uint k) ++ ":v";
  sample := fun _ _ => "abcde";
  communicate := fun _ => (EmptyString, 0%Z)
|}.

Module Spec.
Import Py.

Definition is_InputNode (n : node) : bool :=
  match n with NInput _ => true | _ => false end.
Definition is_OptionNode (n : node) : bool :=
  match n with NOption _ => true | _ => false end.
Definition is_FilterNode (n : node) : bool :=
  match n with NFilter _ => true | _ => false end.
Definition is_GlobalNode (n : node) : bool :=
  match n with NGlobal _ => true | _ => false end.
Definition is_OutputNode (n : node) : bool :=
  match n with NOutput _ => true | _ => false end.

(** The nodes of one class, in the order of the graph. *)
Definition input_nodes_of (graph : list node) : list InputNode.t :=
  flat_map (fun n => match n with NInput i => [i] | _ => [] end) graph.
Definition option_nodes_of (graph : list node) : list OptionNode.t :=
  flat_map (fun n => match n with NOption i => [i] | _ => [] end) graph.
Definition filter_nodes_of (graph : list node) : list FilterNode.t :=
  flat_map (fun n => match n with NFilter i => [i] | _ => [] end) graph.
Definition global_nodes_of (graph : list node) : list GlobalNode.t :=
  flat_map (fun n => match n with NGlobal i => [i] | _ => [] end) graph.
Definition output_nodes_of (graph : list node) : list OutputNode.t :=
  flat_map (fun n => match n with NOutput i => [i] | _ => [] end) graph.

Definition partition_of (graph : list node) : Compiler.partition :=
  (input_nodes_of graph, option_nodes_of graph, filter_nodes_of graph,
   global_nodes_of graph, output_nodes_of graph).

(** [k=v] *)
Definition parameter (kv : string * atom) : string :=
  fst kv ++ "=" ++ str (snd kv).

(** [<in_label> <filter>=<k1>=<v1>:...:<kN>=<vN> <out_label>], the
    statement of a FilterNode without its terminator. *)
Definition statement_body (n : FilterNode.t) : string :=
  FilterNode.in_label n ++ " " ++ FilterNode.filter n ++ "="
    ++ String.concat ":" (map parameter (FilterNode.params n))
    ++ " " ++ FilterNode.out_label n.

(** What [get_str_from_filter] returns for a node it accepts. *)
Definition statement_of (n : FilterNode.t) : string :=
  match Util.get_str_from_filter n with
  | Ok stmt => stmt
  | Raise _ => EmptyString
  end.

(** The segments of one OutputNode: a [-map] and the destination name
    for each of its input labels. *)
Definition map_pairs (out : OutputNode.t) : list string :=
  flat_map (fun inp => [Compiler.map_segment inp; Compiler.name_segment out])
    (OutputNode.inputs out).

(** The segments of the filter path up to and including the last
    filter statement. *)
Definition filter_path_head (cmd : string) (graph : list node)
    (others : list FilterNode.t) (last_ : FilterNode.t) : list string :=
  ([cmd] ++ map Compiler.input_segment (input_nodes_of graph)
     ++ map Compiler.option_segment (option_nodes_of graph)
     ++ [(" -y -filter_complex " ++ dquote)%string]
     ++ map statement_of others
     ++ map Util.get_str_from_global (global_nodes_of graph)
     ++ [replace semicolon EmptyString (statement_of last_)])%list.

(** [s] without its last character. *)
Fixpoint chop (s : string) : string :=
  match s with
  | EmptyString => EmptyString
  | String c EmptyString => EmptyString
  | String c s' => String c (chop s')
  end.

(** The number of occurrences of [c] in [s]. *)
Fixpoint count_char (c : ascii) (s : string) : nat :=
  match s with
  | EmptyString => 0
  | String c' s' => (if Ascii.eqb c' c then 1 else 0) + count_char c s'
  end.

(** Scenario A: an input, a [scale] filter on it, an output of the filter. *)
Definition scenario_A_input : InputNode.t :=
  InputNode.InputNode (AStr "a.mp4") "0:v".

Definition scenario_A_filter : FilterNode.t :=
  FilterNode.add_input
    (FilterNode.FilterNode [] "scale" [("w", AInt 320); ("h", AInt 240)]
       (Label.Label "v1"))
    (Label.Label (InputNode.outputs scenario_A_input)).

Definition scenario_A_output : OutputNode.t :=
  OutputNode.add_input (OutputNode.OutputNode (AStr "out.mp4") [])
    (FilterNode.getitem0 scenario_A_filter).

Definition scenario_A : list node :=
  [NInput scenario_A_input; NFilter scenario_A_filter; NOutput scenario_A_output].

(** A last filter whose parameter value holds a [;]. *)
Definition drawtext_filter : FilterNode.t :=
  FilterNode.FilterNode [Label.Label "0:v"] "drawtext"
    [("text", AStr "a;b")] (Label.Label "v1").

Definition drawtext_graph : list node :=
  [NInput scenario_A_input; NFilter drawtext_filter; NOutput scenario_A_output].

(** The classes [_check_arg_type] lets through. *)
Definition accepted_caller (v : value) : bool :=
  match v with
  | VNode (NInput _) | VNode (NOption _) | VNode (NFilter _)
  | VNode (NGlobal _) | VLabel _ | VList _ => true
  | _ => false
  end.

(** The registry after the three builder calls of Scenario A. *)
Definition scenario_A_world : Builder.World :=
  {| Builder.s := {| Builder.nodes := scenario_A; Builder.count := 1 |};
     Builder.draws := 0; Builder.trace := [] |}.

(** A graph whose first output takes the same label twice and whose
    second output takes it again. *)
Definition fan_out_graph : list node :=
  [ NInput scenario_A_input; NFilter scenario_A_filter;
    NOutput (OutputNode.OutputNode (AStr "out.mp4")
               [Label.Label "v1"; Label.Label "v1"]);
    NOutput (OutputNode.OutputNode (AStr "copy.mp4") [Label.Label "v1"]) ].

(** A graph without FilterNodes that holds an option and a global node. *)
Definition direct_graph : list node :=
  [ NOption (OptionNode.OptionNode (AStr "-ss") (AInt 5));
    NInput (InputNode.InputNode (AStr "a.mp4") "0:v");
    NGlobal (GlobalNode.GlobalNode [Label.Label "0:v"] [Label.Label "x"]
               (AStr "null"));
    NInput (InputNode.InputNode (AStr "b.mp3") "1:v");
    NOutput (OutputNode.OutputNode (AStr "out.mp4") [Label.Label "x"]) ].

(** The labels [_get_label_param] gives for the elements of a list, in
    order, or the first exception it raises. *)
Fixpoint labels_of (xs : list value) : result (list Label.t) :=
  match xs with
  | [] => Ok []
  | x :: xs' =>
      l <- Builder._get_label_param x ;;
      ls <- labels_of xs' ;;
      Ok (l :: ls)
  end.

(** The labels a builder derives from a caller, an [inputs] or an
    [outputs] argument: one per element of a list, one for anything else. *)
Definition caller_labels (v : value) : result (list Label.t) :=
  match v with
  | VList xs => labels_of xs
  | _ => l <- Builder._get_label_param v ;; Ok [l]
  end.

(** What a builder call may do to the registry: on success append the
    node it returns and advance the input counter by [bump], on failure
    nothing; the log of reads and process starts is left alone. *)
Definition registry_step {A} (inj : A -> node) (bump : nat)
    (w : Builder.World) (out : result A * Builder.World) : Prop :=
  match fst out with
  | Ok n =>
      Builder.s (snd out)
      = {| Builder.nodes := Py.append (Builder.nodes (Builder.s w)) (inj n);
           Builder.count := Builder.count (Builder.s w) + bump |}
  | Raise _ => Builder.s (snd out) = Builder.s w
  end
  /\ Builder.trace (snd out) = Builder.trace w.

(** The input counter of the registry is the number of its InputNodes. *)
Definition counts_inputs (w : Builder.World) : Prop :=
  Builder.count (Builder.s w)
  = length (input_nodes_of (Builder.nodes (Builder.s w))).

(** A builder call, and the world after a sequence of such calls (a
    call that raises leaves the world the builder left). *)
Inductive call : Type :=
| CallInput (args : list value) (name : atom)
| CallFilter (args : list value) (kwargs : dict value)
| CallOutput (args : list value) (kwargs : dict atom)
| CallArg (caller : value) (args : atom) (outputs inputs : value)
| CallOption (args : list value) (tag name : atom) (output : value).

Definition after_call {platform : Platform} (w : Builder.World) (c : call)
  : Builder.World :=
  match c with
  | CallInput args name => snd (Builder.input args name w)
  | CallFilter args kwargs => snd (Builder.filter args kwargs w)
  | CallOutput args kwargs => snd (Builder.output args kwargs w)
  | CallArg caller args outputs inputs =>
      snd (Builder.arg caller args outputs inputs w)
  | CallOption args tag name output =>
      snd (Builder.option_ args tag name output w)
  end.

Definition after_calls {platform : Platform} (calls : list call)
  : Builder.World :=
  fold_left after_call calls Builder.world0.

(** [w] with [n] appended to the registry. *)
Definition with_node (w : Builder.World) (n : node) : Builder.World :=
  {| Builder.s := {| Builder.nodes := Py.append (Builder.nodes (Builder.s w)) n;
                     Builder.count := Builder.count (Builder.s w) |};
     Builder.draws := Builder.draws w; Builder.trace := Builder.trace w |}.

(** [w] with the events [evs] added to its log. *)
Definition with_events (w : Builder.World) (evs : list Builder.event)
  : Builder.World :=
  {| Builder.s := Builder.s w; Builder.draws := Builder.draws w;
     Builder.trace := (Builder.trace w ++ evs)%list |}.

(** A FilterNode without parameters, and a graph that holds it. *)
Definition bare_filter : FilterNode.t :=
  FilterNode.FilterNode [Label.Label "0:v"] "null" [] (Label.Label "v2").

Definition bare_graph : list node :=
  [NInput scenario_A_input; NFilter scenario_A_filter; NFilter bare_filter;
   NOutput scenario_A_output].

(** The registry that holds [bare_graph]. *)
Definition bare_world : Builder.World :=
  {| Builder.s := {| Builder.nodes := bare_graph; Builder.count := 1 |};
     Builder.draws := 0; Builder.trace := [] |}.

(** A platform whose external process fails with status 1. *)
Definition failing_platform : Platform := {|
  stream_ref := fun k => NilZero.string_of_uint (Nat.to_uint k) ++ ":v";
  sample := fun _ _ => "abcde";
  communicate := fun _ => ("Unrecognized option", 1%Z)
|}.

End Spec.

(** * Facts *)

(** ** Strings and lists *)

Lemma string_app_assoc (a b c : string) : (a ++ b) ++ c = a ++ (b ++ c).
Proof.
  induction a as [|ch a IH]; simpl; [reflexivity|].
  now rewrite IH.
Qed.

Lemma string_app_nil_r (a : string) : a ++ EmptyString = a.
Proof.
  induction a as [|ch a IH]; simpl; [reflexivity|].
  now rewrite IH.
Qed.

Lemma join_cons (x : string) (xs : list string) :
  Py.join (x :: xs) = x ++ Py.join xs.
Proof.
  unfold Py.join. destruct xs as [|y ys]; simpl.
  - now rewrite string_app_nil_r.
  - reflexivity.
Qed.

Lemma join_app (xs ys : list string) :
  Py.join (xs ++ ys) = Py.join xs ++ Py.join ys.
Proof.
  induction xs as [|x xs IH].
  - reflexivity.
  - rewrite <- app_comm_cons, !join_cons, IH. now rewrite string_app_assoc.
Qed.

Lemma fold_append {A B} (f : A -> B) (xs : list A) (acc : list B) :
  fold_left (fun acc x => Py.append acc (f x)) xs acc = (acc ++ map f xs)%list.
Proof.
  revert acc. induction xs as [|x xs IH]; intros acc; simpl.
  - now rewrite app_nil_r.
  - rewrite IH. unfold Py.append. now rewrite <- app_assoc.
Qed.

Lemma pop_snoc {A} (xs : list A) (x : A) :
  Py.pop (xs ++ [x]) = Py.Ok (x, xs).
Proof.
  unfold Py.pop. rewrite rev_app_distr. simpl. now rewrite rev_involutive.
Qed.

(** ** The partition of the graph *)

Section Partition.
Import Py Compiler Spec.

Lemma classify_fold (graph : list node) :
  forall ins opts fs gs outs,
    fold_left classify graph (ins, opts, fs, gs, outs)
    = ((ins ++ input_nodes_of graph)%list,
       (opts ++ option_nodes_of graph)%list,
       (fs ++ filter_nodes_of graph)%list,
       (gs ++ global_nodes_of graph)%list,
       (outs ++ output_nodes_of graph)%list).
Proof.
  induction graph as [|n graph IH]; intros ins opts fs gs outs.
  - simpl. now rewrite !app_nil_r.
  - cbn [fold_left]. destruct n; cbn [classify]; rewrite IH;
      unfold append; cbn [input_nodes_of option_nodes_of filter_nodes_of
                          global_nodes_of output_nodes_of flat_map];
      rewrite <- ?app_assoc; reflexivity.
Qed.

Lemma partition_lengths (graph : list node) :
  (length (input_nodes_of graph) + length (option_nodes_of graph)
   + length (filter_nodes_of graph) + length (global_nodes_of graph)
   + length (output_nodes_of graph))%nat = length graph.
Proof.
  induction graph as [|n graph IH]; [reflexivity|].
  destruct n; cbn [input_nodes_of option_nodes_of filter_nodes_of
                   global_nodes_of output_nodes_of flat_map length app];
    fold (input_nodes_of graph) (option_nodes_of graph)
         (filter_nodes_of graph) (global_nodes_of graph)
         (output_nodes_of graph); lia.
Qed.

Lemma get_nodes_from_graph_eq (graph : list node) :
  _get_nodes_from_graph graph = Ok (partition_of graph).
Proof.
  unfold _get_nodes_from_graph. rewrite classify_fold. cbn [app].
  rewrite partition_lengths, Nat.eqb_refl. reflexivity.
Qed.

Lemma input_nodes_filter (graph : list node) :
  map NInput (input_nodes_of graph) = List.filter is_InputNode graph.
Proof.
  induction graph as [|n graph IH]; [reflexivity|].
  destruct n; simpl; fold (input_nodes_of graph); now rewrite ?IH.
Qed.

Lemma option_nodes_filter (graph : list node) :
  map NOption (option_nodes_of graph) = List.filter is_OptionNode graph.
Proof.
  induction graph as [|n graph IH]; [reflexivity|].
  destruct n; simpl; fold (option_nodes_of graph); now rewrite ?IH.
Qed.

Lemma filter_nodes_filter (graph : list node) :
  map NFilter (filter_nodes_of graph) = List.filter is_FilterNode graph.
Proof.
  induction graph as [|n graph IH]; [reflexivity|].
  destruct n; simpl; fold (filter_nodes_of graph); now rewrite ?IH.
Qed.

Lemma global_nodes_filter (graph : list node) :
  map NGlobal (global_nodes_of graph) = List.filter is_GlobalNode graph.
Proof.
  induction graph as [|n graph IH]; [reflexivity|].
  destruct n; simpl; fold (global_nodes_of graph); now rewrite ?IH.
Qed.

Lemma output_nodes_filter (graph : list node) :
  map NOutput (output_nodes_of graph) = List.filter is_OutputNode graph.
Proof.
  induction graph as [|n graph IH]; [reflexivity|].
  destruct n; simpl; fold (output_nodes_of graph); now rewrite ?IH.
Qed.

(** C7: [_get_nodes_from_graph] returns, for every graph, five lists
    that are the InputNodes, OptionNodes, FilterNodes, GlobalNodes and
    OutputNodes of the graph, each in the order of the graph, and its
    assertion holds: the five lengths add up to the length of the graph. *)
Theorem C7_partition_preserves_order_and_total (graph : list node) :
  exists ins opts fs gs outs,
    _get_nodes_from_graph graph = Ok (ins, opts, fs, gs, outs)
    /\ map NInput ins = List.filter is_InputNode graph
    /\ map NOption opts = List.filter is_OptionNode graph
    /\ map NFilter fs = List.filter is_FilterNode graph
    /\ map NGlobal gs = List.filter is_GlobalNode graph
    /\ map NOutput outs = List.filter is_OutputNode graph
    /\ (length ins + length opts + length fs + length gs + length outs)%nat
       = length graph.
Proof.
  exists (input_nodes_of graph), (option_nodes_of graph),
    (filter_nodes_of graph), (global_nodes_of graph), (output_nodes_of graph).
  split; [apply get_nodes_from_graph_eq|].
  repeat split;
    auto using input_nodes_filter, option_nodes_filter, filter_nodes_filter,
      global_nodes_filter, output_nodes_filter, partition_lengths.
Qed.

End Partition.

(** ** The direct path *)

Section DirectPath.
Import Py Compiler Spec.

Lemma no_filter_result_eq ins outs cmd :
  _no_filter_result ins outs cmd
  = ([cmd; " -y"] ++ map input_segment ins ++ map name_segment outs)%list.
Proof.
  unfold _no_filter_result. rewrite !fold_append. reflexivity.
Qed.

Lemma no_filter_command_eq ins outs cmd :
  _no_filter_command ins outs cmd
  = cmd ++ " -y" ++ join (map input_segment ins) ++ join (map name_segment outs).
Proof.
  unfold _no_filter_command. rewrite no_filter_result_eq.
  cbn [app]. now rewrite !join_cons, join_app.
Qed.

(** C2: a graph without FilterNodes compiles by the direct path,
    whatever GlobalNodes and OptionNodes it holds and whatever program
    name is passed: [ffmpeg], [-y], one [-i <name>] per InputNode in
    order, one [<name>] per OutputNode in order, and nothing else. *)
Theorem C2_direct_path_without_filters (graph : list node) (cmd : string) :
  List.filter is_FilterNode graph = [] ->
  _get_command_from_graph graph cmd
  = Ok ("ffmpeg" ++ " -y"
        ++ join (map (fun inp => " -i " ++ str (InputNode.name inp) ++ " ")
                   (input_nodes_of graph))
        ++ join (map (fun out => " " ++ str (OutputNode.name out) ++ " ")
                   (output_nodes_of graph))).
Proof.
  intros Hnone. unfold _get_command_from_graph.
  rewrite get_nodes_from_graph_eq. unfold partition_of. cbn [bind].
  rewrite <- filter_nodes_filter in Hnone.
  apply map_eq_nil in Hnone. rewrite Hnone. cbn [length Nat.eqb].
  now rewrite no_filter_command_eq.
Qed.

Lemma C2_direct_path_witness :
  List.filter is_FilterNode direct_graph = []
  /\ _get_command_from_graph direct_graph "avconv"
     = Ok "ffmpeg -y -i a.mp4  -i b.mp3  out.mp4 ".
Proof.
  split; [reflexivity|].
  exact (C2_direct_path_without_filters direct_graph "avconv" eq_refl).
Defined.

End DirectPath.

(** ** Filter statements *)

Section Statements.
Import Py Util Spec.

Lemma for_succeeds {A S} (body : S -> A -> result S) (xs : list A) :
  (forall acc x, In x xs -> exists acc', body acc x = Ok acc') ->
  forall acc, exists acc', for_ xs acc body = Ok acc'.
Proof.
  induction xs as [|x xs IH]; intros Hbody acc; simpl.
  - now exists acc.
  - destruct (Hbody acc x (or_introl eq_refl)) as [acc1 H1].
    rewrite H1. cbn [bind]. apply IH.
    intros acc2 y Hy. apply Hbody. now right.
Qed.

Lemma getitem_present {V} (d : dict V) (k : string) :
  In k (keys d) -> exists v, getitem d k = Ok v.
Proof.
  induction d as [|[k' v'] d IH]; simpl; [contradiction|].
  intros [Hk|Hk].
  - subst k'. rewrite String.eqb_refl. now exists v'.
  - destruct (String.eqb k' k); [now exists v'|now apply IH].
Qed.

Lemma getitem_nth {V} (d : dict V) :
  NoDup (keys d) ->
  forall i k v, nth_error d i = Some (k, v) -> getitem d k = Ok v.
Proof.
  induction d as [|[k' v'] d IH]; intros Hnd i k v Hi.
  - now destruct i.
  - inversion Hnd as [|? ? Hnotin Hnd']; subst.
    destruct i as [|i]; simpl in *.
    + injection Hi as -> ->. now rewrite String.eqb_refl.
    + assert (Hin : In k (keys d)).
      { apply nth_error_In in Hi. unfold keys.
        now apply (in_map fst) in Hi. }
      destruct (String.eqb_spec k' k) as [->|Hne]; [contradiction|].
      now apply IH with i.
Qed.

Lemma index_in {A} (xs : list A) (i : nat) :
  i < length xs -> exists x, index xs i = Ok x /\ In x xs.
Proof.
  intros Hi. unfold index.
  destruct (nth_error xs i) as [x|] eqn:E.
  - exists x. split; [reflexivity|]. now apply nth_error_In with i.
  - apply nth_error_None in E. lia.
Qed.

(** Every non-empty parameter mapping is serialised. *)
Lemma get_str_from_params_succeeds (params : dict atom) :
  params <> [] -> exists p, get_str_from_params params = Ok p.
Proof.
  destruct params as [|[k0 v0] rest]; [congruence|]. intros _.
  assert (H0 : getitem ((k0, v0) :: rest) k0 = Ok v0)
    by (simpl; now rewrite String.eqb_refl).
  unfold get_str_from_params. cbn [keys map index nth_error bind fst].
  rewrite H0. cbn [bind].
  match goal with
  | |- context [for_ ?xs ?acc0 ?body] =>
      assert (Hbody : forall acc x, In x xs -> exists acc', body acc x = Ok acc');
      [|destruct (for_succeeds body xs Hbody acc0) as [acc Hacc];
        rewrite Hacc; cbn [bind]; eauto]
  end.
  intros acc i Hi. unfold range in Hi. apply in_seq in Hi.
  destruct (index_in (k0 :: map fst rest) i) as (k & Hk & Hin);
    [simpl in *; lia|].
  rewrite Hk. cbn [bind].
  destruct (getitem_present ((k0, v0) :: rest) k Hin) as [v Hv].
  rewrite Hv. cbn [bind]. eauto.
Qed.

Lemma params_loop (d : dict atom) :
  NoDup (keys d) ->
  forall rest pre acc,
    d = (pre ++ rest)%list ->
    for_ (seq (length pre) (length rest)) acc
      (fun string_ i =>
         ki <- index (keys d) i ;;
         vi <- getitem d ki ;;
         Ok (append string_ (":" ++ ki ++ "=" ++ str vi)))
    = Ok (acc ++ map (fun kv => (":" ++ parameter kv)%string) rest)%list.
Proof.
  intros Hnd. induction rest as [|[k v] rest IH]; intros pre acc Hd.
  - simpl. now rewrite app_nil_r.
  - cbn [length seq for_].
    assert (Hnth : nth_error d (length pre) = Some (k, v)).
    { rewrite Hd, nth_error_app2, Nat.sub_diag by lia. reflexivity. }
    unfold index at 1, keys at 1. rewrite nth_error_map, Hnth.
    cbn [option_map fst bind].
    rewrite (getitem_nth d Hnd _ _ _ Hnth). cbn [bind].
    specialize (IH (pre ++ [(k, v)])%list (append acc (":" ++ k ++ "=" ++ str v))).
    rewrite length_app, Nat.add_1_r in IH. rewrite IH.
    + unfold append. now rewrite <- app_assoc.
    + now rewrite <- app_assoc.
Qed.

Lemma join_parameters (kv : string * atom) (rest : dict atom) :
  join (parameter kv :: map (fun kv => ":" ++ parameter kv) rest)
  = String.concat ":" (map parameter (kv :: rest)).
Proof.
  revert kv. induction rest as [|kv' rest IH]; intros kv.
  - reflexivity.
  - rewrite join_cons. cbn [map]. rewrite join_cons.
    change (String.concat ":" (parameter kv :: parameter kv' :: map parameter rest))
      with (parameter kv ++ ":" ++ String.concat ":" (map parameter (kv' :: rest))).
    rewrite <- IH, join_cons. now rewrite !string_app_assoc.
Qed.

(** With distinct keys the parameters are joined by [:] in insertion order. *)
Lemma get_str_from_params_eq (params : dict atom) :
  params <> [] -> NoDup (keys params) ->
  get_str_from_params params = Ok (String.concat ":" (map parameter params)).
Proof.
  destruct params as [|[k0 v0] rest]; [congruence|]. intros _ Hnd.
  assert (H0 : getitem ((k0, v0) :: rest) k0 = Ok v0)
    by (simpl; now rewrite String.eqb_refl).
  unfold get_str_from_params.
  cbn [keys map index nth_error bind fst].
  rewrite H0. cbn [bind].
  unfold range. cbn [length]. rewrite Nat.sub_succ, Nat.sub_0_r, length_map.
  change (k0 :: map fst rest) with (keys ((k0, v0) :: rest)).
  rewrite (params_loop ((k0, v0) :: rest) Hnd rest [(k0, v0)]) by reflexivity.
  cbn [bind append app]. f_equal. exact (join_parameters (k0, v0) rest).
Qed.

Lemma get_str_from_filter_succeeds (n : FilterNode.t) :
  FilterNode.params n <> [] ->
  get_str_from_filter n = Ok (statement_of n).
Proof.
  intros Hne. unfold statement_of.
  destruct (get_str_from_params_succeeds _ Hne) as [p Hp].
  unfold get_str_from_filter. now rewrite Hp.
Qed.

(** C3: a FilterNode with a non-empty parameter mapping is serialised as
    [<in_label> <filter>=<k1>=<v1>:...:<kN>=<vN> <out_label>;], the
    parameters in insertion order, joined by [:] with none after the
    last; and the graph of Scenario A compiles to a command whose quoted
    filter graph is [[0:v] scale=w=320:h=240 [v1]], without a [;]. *)
Theorem C3_filter_statement_format (n : FilterNode.t) :
  FilterNode.params n <> [] ->
  NoDup (keys (FilterNode.params n)) ->
  get_str_from_filter n
  = Ok (FilterNode.in_label n ++ " " ++ FilterNode.filter n ++ "="
        ++ String.concat ":"
             (map (fun kv => fst kv ++ "=" ++ str (snd kv)) (FilterNode.params n))
        ++ " " ++ FilterNode.out_label n ++ ";")
  /\ Compiler._get_command_from_graph scenario_A "ffmpeg"
     = Ok ("ffmpeg -i a.mp4  -y -filter_complex "
           ++ dquote ++ "[0:v] scale=w=320:h=240 [v1]" ++ dquote
           ++ " -map " ++ dquote ++ "[v1]" ++ dquote ++ " out.mp4 ").
Proof.
  intros Hne Hnd. split; [|reflexivity].
  unfold get_str_from_filter.
  rewrite (get_str_from_params_eq _ Hne Hnd). reflexivity.
Qed.

Lemma C3_filter_statement_witness :
  FilterNode.params scenario_A_filter <> []
  /\ NoDup (keys (FilterNode.params scenario_A_filter))
  /\ get_str_from_filter scenario_A_filter
     = Ok "[0:v] scale=w=320:h=240 [v1];".
Proof.
  assert (Hne : FilterNode.params scenario_A_filter <> []) by discriminate.
  assert (Hnd : NoDup (keys (FilterNode.params scenario_A_filter))).
  { repeat constructor; simpl; intuition discriminate. }
  split; [exact Hne|]. split; [exact Hnd|].
  exact (proj1 (C3_filter_statement_format scenario_A_filter Hne Hnd)).
Defined.

End Statements.

(** ** The filter path *)

Section FilterPath.
Import Py Util Compiler Spec.

Lemma for_statements (fs : list FilterNode.t) :
  Forall (fun n => FilterNode.params n <> []) fs ->
  forall acc,
    for_ fs acc
      (fun result filter_ =>
         stmt <- get_str_from_filter filter_ ;; Ok (append result stmt))
    = Ok (acc ++ map statement_of fs)%list.
Proof.
  induction 1 as [|n fs Hn _ IH]; intros acc; simpl.
  - now rewrite app_nil_r.
  - rewrite (get_str_from_filter_succeeds n Hn). cbn [bind].
    rewrite IH. unfold append. now rewrite <- app_assoc.
Qed.

Lemma fold_map_pairs (outs : list OutputNode.t) :
  forall acc,
    fold_left
      (fun result out =>
         fold_left
           (fun result inp =>
              let result := append result (map_segment inp) in
              append result (name_segment out))
           (OutputNode.inputs out) result)
      outs acc
    = (acc ++ flat_map map_pairs outs)%list.
Proof.
  induction outs as [|out outs IH]; intros acc; simpl.
  - now rewrite app_nil_r.
  - rewrite IH, app_assoc. f_equal.
    unfold map_pairs. generalize acc.
    induction (OutputNode.inputs out) as [|inp inps IH']; intros acc'; simpl.
    + now rewrite app_nil_r.
    + rewrite IH'. unfold append. now rewrite <- !app_assoc.
Qed.

(** The segments the filter path emits, in order. *)
Lemma filter_path_result_eq cmd graph others last_ :
  filter_nodes_of graph = (others ++ [last_])%list ->
  Forall (fun n => FilterNode.params n <> []) (filter_nodes_of graph) ->
  _filter_path_result cmd (partition_of graph)
  = Ok (filter_path_head cmd graph others last_ ++ [dquote]
        ++ flat_map map_pairs (output_nodes_of graph))%list.
Proof.
  intros Hfs Hall. unfold _filter_path_result, partition_of.
  rewrite Hfs in Hall |- *. rewrite pop_snoc. cbn [bind].
  apply Forall_app in Hall. destruct Hall as [Hothers Hlast].
  inversion Hlast as [|? ? Hlast' _]; subst.
  rewrite !fold_append, (for_statements others Hothers). cbn [bind].
  rewrite fold_append, (get_str_from_filter_succeeds last_ Hlast').
  cbn [bind]. rewrite fold_map_pairs.
  unfold filter_path_head, append.
  repeat (progress (rewrite <- ?app_assoc; cbn [app])). reflexivity.
Qed.

Lemma get_command_filter_path cmd graph others last_ :
  filter_nodes_of graph = (others ++ [last_])%list ->
  Forall (fun n => FilterNode.params n <> []) (filter_nodes_of graph) ->
  _get_command_from_graph graph cmd
  = Ok (join (filter_path_head cmd graph others last_) ++ dquote
        ++ join (flat_map map_pairs (output_nodes_of graph))).
Proof.
  intros Hfs Hall. unfold _get_command_from_graph.
  rewrite get_nodes_from_graph_eq. unfold partition_of at 1. cbn [bind].
  assert (Hlen : Nat.eqb (length (filter_nodes_of graph)) 0 = false).
  { rewrite Hfs, length_app. simpl. apply Nat.eqb_neq. lia. }
  rewrite Hlen.
  change (_filter_path_result cmd _)
    with (_filter_path_result cmd (partition_of graph)).
  rewrite (filter_path_result_eq cmd graph others last_ Hfs Hall).
  cbn [bind]. rewrite !join_app, join_cons.
  change (join []) with EmptyString. reflexivity.
Qed.

(** C5: in the filter path the segments after the closing quote are,
    for every OutputNode in order and for every one of its input labels
    in order, a [-map] segment with the bracketed label followed by the
    destination name of that node: an OutputNode with M input labels
    gives M such pairs, repeated labels included. *)
Theorem C5_one_map_per_input_label (graph : list node) (cmd : string) :
  filter_nodes_of graph <> [] ->
  Forall (fun n => FilterNode.params n <> []) (filter_nodes_of graph) ->
  exists others last_,
    filter_nodes_of graph = (others ++ [last_])%list
    /\ _filter_path_result cmd (partition_of graph)
       = Ok (filter_path_head cmd graph others last_ ++ [dquote]
             ++ flat_map
                  (fun out =>
                     flat_map
                       (fun inp =>
                          [(" -map " ++ dquote ++ "[" ++ Label.label inp ++ "]"
                              ++ dquote)%string;
                           (" " ++ str (OutputNode.name out) ++ " ")%string])
                       (OutputNode.inputs out))
                  (output_nodes_of graph))%list
    /\ _get_command_from_graph graph cmd
       = Ok (join (filter_path_head cmd graph others last_) ++ dquote
             ++ join (flat_map map_pairs (output_nodes_of graph)))
    /\ forall out,
         length (map_pairs out) = 2 * length (OutputNode.inputs out).
Proof.
  intros Hne Hall.
  destruct (exists_last Hne) as (others & last_ & Hfs).
  exists others, last_. split; [exact Hfs|]. split; [|split].
  - exact (filter_path_result_eq cmd graph others last_ Hfs Hall).
  - exact (get_command_filter_path cmd graph others last_ Hfs Hall).
  - intros out. unfold map_pairs.
    induction (OutputNode.inputs out) as [|inp inps IH]; simpl; [reflexivity|].
    rewrite IH. lia.
Qed.

Lemma C5_one_map_per_input_label_witness :
  filter_nodes_of fan_out_graph <> []
  /\ Forall (fun n => FilterNode.params n <> []) (filter_nodes_of fan_out_graph)
  /\ exists others last_,
       filter_nodes_of fan_out_graph = (others ++ [last_])%list
       /\ _filter_path_result "ffmpeg" (partition_of fan_out_graph)
          = Ok (filter_path_head "ffmpeg" fan_out_graph others last_ ++ [dquote]
                ++ flat_map
                     (fun out =>
                        flat_map
                          (fun inp =>
                             [(" -map " ++ dquote ++ "[" ++ Label.label inp ++ "]"
                                 ++ dquote)%string;
                              (" " ++ str (OutputNode.name out) ++ " ")%string])
                          (OutputNode.inputs out))
                     (output_nodes_of fan_out_graph))%list
       /\ _get_command_from_graph fan_out_graph "ffmpeg"
          = Ok (join (filter_path_head "ffmpeg" fan_out_graph others last_)
                ++ dquote
                ++ join (flat_map map_pairs (output_nodes_of fan_out_graph)))
       /\ forall out,
            length (map_pairs out) = 2 * length (OutputNode.inputs out).
Proof.
  assert (Hne : filter_nodes_of fan_out_graph <> []) by discriminate.
  assert (Hall : Forall (fun n => FilterNode.params n <> [])
                   (filter_nodes_of fan_out_graph)).
  { repeat constructor; discriminate. }
  split; [exact Hne|]. split; [exact Hall|].
  exact (C5_one_map_per_input_label fan_out_graph "ffmpeg" Hne Hall).
Defined.

Example fan_out_command :
  _get_command_from_graph fan_out_graph "ffmpeg"
  = Ok ("ffmpeg -i a.mp4  -y -filter_complex "
        ++ dquote ++ "[0:v] scale=w=320:h=240 [v1]" ++ dquote
        ++ " -map " ++ dquote ++ "[v1]" ++ dquote ++ " out.mp4 "
        ++ " -map " ++ dquote ++ "[v1]" ++ dquote ++ " out.mp4 "
        ++ " -map " ++ dquote ++ "[v1]" ++ dquote ++ " copy.mp4 ").
Proof. reflexivity. Qed.

Lemma count_char_app c a b :
  count_char c (a ++ b) = count_char c a + count_char c b.
Proof.
  induction a as [|ch a IH]; simpl; [reflexivity|]. rewrite IH. lia.
Qed.

Lemma replace_removes_all c s : count_char c (replace c EmptyString s) = 0.
Proof.
  induction s as [|ch s IH]; simpl; [reflexivity|].
  destruct (Ascii.eqb ch c) eqn:E; simpl; [exact IH|].
  now rewrite E, IH.
Qed.

Lemma replace_absent c s : count_char c s = 0 -> replace c EmptyString s = s.
Proof.
  induction s as [|ch s IH]; simpl; [reflexivity|].
  destruct (Ascii.eqb ch c); simpl; [discriminate|].
  intros H. now rewrite IH.
Qed.

Lemma replace_app c a b :
  replace c EmptyString (a ++ b) = replace c EmptyString a ++ replace c EmptyString b.
Proof.
  induction a as [|ch a IH]; simpl; [reflexivity|].
  destruct (Ascii.eqb ch c); simpl; now rewrite IH.
Qed.

(** Every statement [get_str_from_filter] returns ends in [;]. *)
Lemma statement_terminated (n : FilterNode.t) :
  FilterNode.params n <> [] ->
  exists body, statement_of n = body ++ ";".
Proof.
  intros Hne. unfold statement_of, get_str_from_filter.
  destruct (get_str_from_params_succeeds _ Hne) as [p Hp]. rewrite Hp.
  cbn [bind append app]. change (join [?x]) with x.
  exists (FilterNode.in_label n ++ " " ++ FilterNode.filter n ++ "=" ++ p
          ++ " " ++ FilterNode.out_label n).
  now rewrite !string_app_assoc.
Qed.

(** The last statement as emitted holds no [;] at all. *)
Lemma last_statement_has_no_semicolon (n : FilterNode.t) :
  count_char semicolon (replace semicolon EmptyString (statement_of n)) = 0.
Proof. apply replace_removes_all. Qed.

(** When the text of the last FilterNode holds no [;], what is emitted
    for it is its statement without the terminator. *)
Lemma last_statement_without_inner_semicolon (n : FilterNode.t) :
  FilterNode.params n <> [] ->
  NoDup (keys (FilterNode.params n)) ->
  count_char semicolon (statement_body n) = 0 ->
  replace semicolon EmptyString (statement_of n) = statement_body n.
Proof.
  intros Hne Hnd Hnone. unfold statement_of, get_str_from_filter.
  rewrite (get_str_from_params_eq _ Hne Hnd). cbn [bind append app].
  change (join [?x]) with x. cbn [join String.concat].
  replace (FilterNode.in_label n ++ " " ++ FilterNode.filter n ++ "="
           ++ String.concat ":" (map parameter (FilterNode.params n))
           ++ " " ++ FilterNode.out_label n ++ ";")
    with (statement_body n ++ ";")
    by (unfold statement_body; now rewrite !string_app_assoc).
  rewrite replace_app, (replace_absent _ _ Hnone). simpl.
  apply string_app_nil_r.
Qed.

(** C1: on a graph whose last FilterNode has the parameter
    [text = a;b], the statement of that node is
    [[0:v] drawtext=text=a;b [v1];], and the compiler emits it as
    [[0:v] drawtext=text=ab [v1]]: every [;] is removed, not only the
    terminator, so the emitted text is not the statement without its
    trailing [;]. *)
Theorem C1_last_statement_loses_every_semicolon :
  get_str_from_filter drawtext_filter = Ok "[0:v] drawtext=text=a;b [v1];"
  /\ chop "[0:v] drawtext=text=a;b [v1];" = "[0:v] drawtext=text=a;b [v1]"
  /\ _filter_path_result "ffmpeg" (partition_of drawtext_graph)
     = Ok [ "ffmpeg"; " -i a.mp4 "; (" -y -filter_complex " ++ dquote)%string;
            "[0:v] drawtext=text=ab [v1]"; dquote;
            (" -map " ++ dquote ++ "[v1]" ++ dquote)%string; " out.mp4 " ]
  /\ "[0:v] drawtext=text=ab [v1]" <> chop "[0:v] drawtext=text=a;b [v1];".
Proof.
  repeat split; try reflexivity. discriminate.
Qed.

End FilterPath.

(** ** The builders and [run] *)

Section Builders.
Import Py Compiler Builder Spec.
Context {platform : Platform}.

Lemma check_arg_type_spec (args : list value) :
  _check_arg_type args = true
  <-> exists a, hd_error args = Some a /\ accepted_caller a = true.
Proof.
  destruct args as [|a rest]; simpl.
  - split; [discriminate|]. intros (a & Ha & _). discriminate.
  - split.
    + intros H. exists a. split; [reflexivity|].
      destruct a as [| | | | | |[]]; simpl in *; congruence.
    + intros (a' & Ha & Hacc). injection Ha as <-.
      destruct a as [| | | | | |[]]; simpl in *; congruence.
Qed.

Lemma check_arg_type_rejects (args : list value) :
  (forall a, hd_error args = Some a -> accepted_caller a = false) ->
  _check_arg_type args = false.
Proof.
  intros H. destruct (_check_arg_type args) eqn:E; [|reflexivity].
  apply check_arg_type_spec in E. destruct E as (a & Ha & Hacc).
  rewrite (H a Ha) in Hacc. discriminate.
Qed.

(** C4, as the code has it: [filter] and [output] raise [TypeMissing]
    and leave the registry as it was unless their first positional
    argument is an InputNode, OptionNode, FilterNode, GlobalNode, Label
    or list; [input] and [option] do not look at their positional
    arguments, and [arg] takes a plain string as caller. *)
Theorem C4_filter_and_output_check_the_caller
    (args : list value) (kwargs_f : dict value) (kwargs_o : dict atom)
    (w : World) :
  (forall a, hd_error args = Some a -> accepted_caller a = false) ->
  filter args kwargs_f w
  = (Raise (TypeMissing "Filter requires an filter or input type argument"), w)
  /\ output args kwargs_o w
     = (Raise (TypeMissing "Output requires an filter or input type argument"), w)
  /\ (forall name, input args name w = input [] name w)
  /\ (forall tag name out, option_ args tag name out w = option_ [] tag name out w)
  /\ arg (VStr "0:v") (AStr "null") (VStr "x") VNone world0
     = (Ok (GlobalNode.GlobalNode [Label.Label "0:v"] [Label.Label "x"]
              (AStr "null")),
        {| s := {| nodes := [NGlobal (GlobalNode.GlobalNode [Label.Label "0:v"]
                                        [Label.Label "x"] (AStr "null"))];
                   count := 0 |};
           draws := 0; trace := [] |}).
Proof.
  intros Hrej. apply check_arg_type_rejects in Hrej.
  unfold filter, output. rewrite Hrej. cbn [negb].
  repeat split; reflexivity.
Qed.

(** C6: [run] on a caller that is not an OutputNode raises
    [OutputNodeMissingInRun] and leaves the world as it was: the
    registry is not read and no process is started. *)
Theorem C6_run_requires_an_output_node (caller : value) (w : World) :
  isinstance_OutputNode caller = false ->
  run caller w = (Raise OutputNodeMissingInRun, w).
Proof.
  intros H. unfold run. rewrite H. reflexivity.
Qed.

Lemma add_labels_None {N} (add : N -> Label.t -> N) (node_ : N) :
  add_labels add node_ VNone
  = Raise (TypeMissing "Filter requires an filter or input type argument").
Proof. reflexivity. Qed.

(** C8: a call of [arg] without outputs never returns a GlobalNode: the
    label of the absent [outputs] is asked of [_get_label_param], which
    raises, and nothing is appended to the registry. At the caller
    [Label("0:v")] the exception is [TypeMissing]. *)
Theorem C8_arg_without_outputs_raises
    (caller : value) (args : atom) (inputs : value) (w : World) :
  (exists e, arg caller args VNone inputs w = (Raise e, w))
  /\ arg (VLabel (Label.Label "0:v")) (AStr "concat=n=2") VNone VNone world0
     = (Raise (TypeMissing "Filter requires an filter or input type argument"),
        world0).
Proof.
  split; [|reflexivity].
  unfold arg, bindM, lift.
  destruct (if is_not_None inputs
            then add_labels GlobalNode.add_input
                   (GlobalNode.GlobalNode [] [] args) inputs
            else add_labels GlobalNode.add_input
                   (GlobalNode.GlobalNode [] [] args) caller) as [n|e].
  - rewrite add_labels_None. eauto.
  - eauto.
Qed.

(** C9: a call of [option] without an output raises [TypeMissing] and
    appends nothing, whatever the tag and the name. *)
Theorem C9_option_without_output_raises
    (args : list value) (tag name : atom) (w : World) :
  option_ args tag name VNone w
  = (Raise (TypeMissing "Filter requires an filter or input type argument"), w).
Proof. reflexivity. Qed.

(** C10: when the caller passes the type check and the keyword
    arguments have no [name], [output] returns [None], raises nothing
    and leaves the registry as it was. *)
Theorem C10_output_without_name_returns_None
    (args : list value) (kwargs : dict atom) (w : World) :
  _check_arg_type args = true ->
  contains kwargs "name" = false ->
  output args kwargs w = (Ok None, w).
Proof.
  intros Hcheck Hname. unfold output. rewrite Hcheck, Hname. reflexivity.
Qed.

End Builders.

(** ** The statements at concrete calls *)

Section Calls.
Import Py Compiler Builder Spec.

(** The claim of C4 fails for [input]: called with the integer [42] as
    caller, it raises nothing and appends an InputNode. *)
Lemma C4_input_accepts_any_caller :
  accepted_caller (VInt 42) = false
  /\ @input demo_platform [VInt 42] (AStr "a.mp4") world0
     = (Ok scenario_A_input,
        {| s := {| nodes := [NInput scenario_A_input]; count := 1 |};
           draws := 0; trace := [] |})
  /\ ~ (exists msg,
          @input demo_platform [VInt 42] (AStr "a.mp4") world0
          = (Raise (TypeMissing msg), world0)).
Proof.
  split; [reflexivity|]. split; [reflexivity|].
  intros [msg H]. discriminate H.
Qed.

Lemma C4_filter_and_output_witness :
  (forall a, hd_error [VInt 42] = Some a -> accepted_caller a = false)
  /\ @filter demo_platform [VInt 42] [("filter_name", VStr "scale")] world0
     = (Raise (TypeMissing "Filter requires an filter or input type argument"),
        world0)
  /\ output [VInt 42] [("name", AStr "out.mp4")] world0
     = (Raise (TypeMissing "Output requires an filter or input type argument"),
        world0).
Proof.
  assert (H : forall a, hd_error [VInt 42] = Some a -> accepted_caller a = false).
  { intros a Ha. injection Ha as <-. reflexivity. }
  split; [exact H|].
  destruct (@C4_filter_and_output_check_the_caller demo_platform [VInt 42]
              [("filter_name", VStr "scale")] [("name", AStr "out.mp4")]
              world0 H) as (Hf & Ho & _).
  split; [exact Hf|exact Ho].
Defined.

Lemma C6_run_witness :
  isinstance_OutputNode (VNode (NFilter scenario_A_filter)) = false
  /\ @run demo_platform (VNode (NFilter scenario_A_filter)) scenario_A_world
     = (Raise OutputNodeMissingInRun, scenario_A_world).
Proof.
  split; [reflexivity|].
  exact (@C6_run_requires_an_output_node demo_platform
           (VNode (NFilter scenario_A_filter)) scenario_A_world eq_refl).
Defined.

Lemma C10_output_without_name_witness :
  _check_arg_type [VNode (NFilter scenario_A_filter)] = true
  /\ contains [("codec", AStr "copy")] "name" = false
  /\ output [VNode (NFilter scenario_A_filter)] [("codec", AStr "copy")]
       scenario_A_world
     = (Ok None, scenario_A_world).
Proof.
  split; [reflexivity|]. split; [reflexivity|].
  exact (C10_output_without_name_returns_None
           [VNode (NFilter scenario_A_filter)] [("codec", AStr "copy")]
           scenario_A_world eq_refl eq_refl).
Defined.

(** Scenario A through the builders: the three calls give the registry
    of [scenario_A_world], and [run] hands the compiled command to the
    process. *)
Example scenario_A_by_builders :
  (inp <~ @input demo_platform [] (AStr "a.mp4") ;;
   f <~ @filter demo_platform [VNode (NInput inp)]
          [("filter_name", VStr "scale");
           ("params", VDict [("w", AInt 320); ("h", AInt 240)]);
           ("outputs", VStr "v1")] ;;
   out <~ output [VNode (NFilter f)] [("name", AStr "out.mp4")] ;;
   ret out) world0
  = (Ok (Some scenario_A_output), scenario_A_world).
Proof. reflexivity. Qed.

Example scenario_A_run :
  @run demo_platform (VNode (NOutput scenario_A_output)) scenario_A_world
  = (Ok (EmptyString, ANone),
     {| s := s scenario_A_world; draws := 0;
        trace := [GraphRead;
                  Popen ("ffmpeg -i a.mp4  -y -filter_complex "
                         ++ dquote ++ "[0:v] scale=w=320:h=240 [v1]" ++ dquote
                         ++ " -map " ++ dquote ++ "[v1]" ++ dquote
                         ++ " out.mp4 ")] |}).
Proof. reflexivity. Qed.

End Calls.


(** ** Outcomes of the serialisers *)

Section Outcomes.
Import Py Util Compiler Spec.

(** [get_str_from_params] fails on the empty dict only, with the
    [IndexError] of [keys[0]]; on every other dict it returns a string:
    the look-ups [params[keys[i]]] never raise. *)
Theorem get_str_from_params_outcome (params : dict atom) :
  (params = [] /\ get_str_from_params params = Raise IndexError)
  \/ (params <> [] /\ exists p, get_str_from_params params = Ok p).
Proof.
  destruct params as [|kv rest].
  - left. split; reflexivity.
  - right. split; [discriminate|].
    apply get_str_from_params_succeeds. discriminate.
Qed.

Lemma get_str_from_filter_empty (n : FilterNode.t) :
  FilterNode.params n = [] -> get_str_from_filter n = Raise IndexError.
Proof.
  intros H. unfold get_str_from_filter. now rewrite H.
Qed.

(** [get_str_from_filter] raises [IndexError] for a node without
    parameters and otherwise returns a statement that ends in [;]. *)
Theorem get_str_from_filter_outcome (n : FilterNode.t) :
  (FilterNode.params n = [] /\ get_str_from_filter n = Raise IndexError)
  \/ (FilterNode.params n <> []
      /\ exists body, get_str_from_filter n = Ok (body ++ ";")).
Proof.
  destruct (FilterNode.params n) as [|kv rest] eqn:E.
  - left. split; [reflexivity|]. now apply get_str_from_filter_empty.
  - right. split; [discriminate|].
    assert (Hne : FilterNode.params n <> []) by (rewrite E; discriminate).
    destruct (statement_terminated n Hne) as [body Hbody].
    exists body. now rewrite (get_str_from_filter_succeeds n Hne), Hbody.
Qed.

Lemma for_statements_raise (fs : list FilterNode.t) :
  Exists (fun n => FilterNode.params n = []) fs ->
  forall acc,
    for_ fs acc
      (fun result filter_ =>
         stmt <- get_str_from_filter filter_ ;; Ok (append result stmt))
    = Raise IndexError.
Proof.
  induction fs as [|n fs IH]; intros Hex acc.
  - inversion Hex.
  - cbn [for_]. destruct (FilterNode.params n) as [|kv rest] eqn:E.
    + now rewrite (get_str_from_filter_empty n E).
    + assert (Hne : FilterNode.params n <> []) by (rewrite E; discriminate).
      rewrite (get_str_from_filter_succeeds n Hne). cbn [bind].
      apply IH. inversion Hex as [? ? H0|]; subst; [congruence|assumption].
Qed.

Lemma params_all_or_some (fs : list FilterNode.t) :
  Forall (fun n => FilterNode.params n <> []) fs
  \/ Exists (fun n => FilterNode.params n = []) fs.
Proof.
  induction fs as [|n fs [IH|IH]].
  - left. constructor.
  - destruct (FilterNode.params n) as [|kv rest] eqn:E.
    + right. now constructor.
    + left. constructor; [rewrite E; discriminate|assumption].
  - right. now constructor 2.
Qed.

Lemma filter_path_raises cmd graph :
  Exists (fun n => FilterNode.params n = []) (filter_nodes_of graph) ->
  _filter_path_result cmd (partition_of graph) = Raise IndexError.
Proof.
  intros Hex. unfold _filter_path_result, partition_of.
  assert (Hne : filter_nodes_of graph <> []).
  { intros E. rewrite E in Hex. inversion Hex. }
  destruct (exists_last Hne) as (others & last_ & Hfs).
  rewrite Hfs in Hex |- *. rewrite pop_snoc. cbn [bind].
  rewrite !fold_append. apply Exists_app in Hex.
  destruct (params_all_or_some others) as [Hall|Hsome].
  - rewrite (for_statements others Hall). cbn [bind].
    destruct Hex as [Hex|Hex].
    + exfalso. apply Exists_exists in Hex. destruct Hex as (n & Hin & Hn).
      rewrite Forall_forall in Hall. now apply (Hall n Hin).
    + inversion Hex as [? ? H0|? ? H0]; subst; [|inversion H0].
      now rewrite (get_str_from_filter_empty last_ H0).
  - now rewrite (for_statements_raise others Hsome).
Qed.

Lemma get_command_cases (graph : list node) (cmd : string) :
  (Forall (fun n => FilterNode.params n <> []) (filter_nodes_of graph)
   /\ exists command, _get_command_from_graph graph cmd = Ok command)
  \/ (Exists (fun n => FilterNode.params n = []) (filter_nodes_of graph)
      /\ _get_command_from_graph graph cmd = Raise IndexError).
Proof.
  destruct (params_all_or_some (filter_nodes_of graph)) as [Hall|Hsome].
  - left. split; [exact Hall|].
    destruct (filter_nodes_of graph) as [|f fs] eqn:E.
    + unfold _get_command_from_graph.
      rewrite get_nodes_from_graph_eq. unfold partition_of. cbn [bind].
      rewrite E. cbn [length Nat.eqb]. eauto.
    + assert (Hne : f :: fs <> []) by discriminate.
      destruct (exists_last Hne) as (others & last_ & Hfs).
      rewrite <- E in Hall. rewrite Hfs in E.
      rewrite (get_command_filter_path cmd graph others last_ E Hall). eauto.
  - right. split; [exact Hsome|].
    unfold _get_command_from_graph.
    rewrite get_nodes_from_graph_eq. unfold partition_of at 1. cbn [bind].
    assert (Hlen : Nat.eqb (length (filter_nodes_of graph)) 0 = false).
    { destruct (filter_nodes_of graph); [inversion Hsome|reflexivity]. }
    rewrite Hlen.
    change (_filter_path_result cmd _)
      with (_filter_path_result cmd (partition_of graph)).
    now rewrite (filter_path_raises cmd graph Hsome).
Qed.

(** The graph compiles unless one of its FilterNodes has no parameters,
    and then it fails with [IndexError]: no other exception leaves
    [_get_command_from_graph]. *)
Theorem get_command_from_graph_outcome (graph : list node) (cmd : string) :
  (Forall (fun n => FilterNode.params n <> []) (filter_nodes_of graph)
   /\ exists command, _get_command_from_graph graph cmd = Ok command)
  \/ (Exists (fun n => FilterNode.params n = []) (filter_nodes_of graph)
      /\ _get_command_from_graph graph cmd = Raise IndexError).
Proof. exact (get_command_cases graph cmd). Qed.

(** [get_str_from_graph] needs two nodes: on the empty list [graph.pop()]
    raises [IndexError], on a one-node list [graph.pop(0)] does. *)
Theorem get_str_from_graph_needs_two_nodes
    (fmt : dict atom -> string) (graph : list FilterNode.t) :
  length graph < 2 ->
  get_str_from_graph fmt graph = Raise IndexError.
Proof.
  intros Hlen. destruct graph as [|n [|m graph]]; simpl in Hlen; try lia;
    reflexivity.
Qed.

Lemma get_str_from_graph_needs_two_nodes_witness :
  length [bare_filter] < 2
  /\ get_str_from_graph (fun _ => "a.mp4") [bare_filter] = Raise IndexError.
Proof.
  assert (H : length [bare_filter] < 2) by (simpl; lia).
  split; [exact H|].
  exact (get_str_from_graph_needs_two_nodes (fun _ => "a.mp4") [bare_filter] H).
Defined.

(** On [first :: middle ++ [last]], [get_str_from_graph] gives the
    space-joined list of [ffmpeg -y], [-i] with the parameters of the
    first node, the opening of the filter graph, the statement of every
    middle node (each with its [;]), the closing quote and the parameters
    of the last node; the first and the last node are not serialised as
    filters, so only the middle nodes need parameters. *)
Theorem get_str_from_graph_format
    (fmt : dict atom -> string)
    (first last_ : FilterNode.t) (middle : list FilterNode.t) :
  Forall (fun n => FilterNode.params n <> []) middle ->
  get_str_from_graph fmt (first :: middle ++ [last_])%list
  = Ok (String.concat " "
          (["ffmpeg -y"; ("-i " ++ fmt (FilterNode.params first))%string;
            ("-filter_complex" ++ dquote)%string]
           ++ map statement_of middle
           ++ [dquote; fmt (FilterNode.params last_)])%list).
Proof.
  intros Hall. unfold get_str_from_graph.
  rewrite app_comm_cons, pop_snoc. cbn [bind pop0].
  rewrite (for_statements middle Hall). cbn [bind].
  unfold append. cbn [app]. rewrite <- !app_assoc. reflexivity.
Qed.

Lemma get_str_from_graph_format_witness :
  Forall (fun n => FilterNode.params n <> []) [scenario_A_filter]
  /\ get_str_from_graph (fun _ => "a.mp4")
       (bare_filter :: [scenario_A_filter] ++ [bare_filter])%list
     = Ok ("ffmpeg -y -i a.mp4 -filter_complex" ++ dquote
           ++ " [0:v] scale=w=320:h=240 [v1]; " ++ dquote ++ " a.mp4").
Proof.
  assert (H : Forall (fun n => FilterNode.params n <> []) [scenario_A_filter]).
  { repeat constructor; discriminate. }
  split; [exact H|].
  exact (get_str_from_graph_format (fun _ => "a.mp4") bare_filter bare_filter
           [scenario_A_filter] H).
Defined.

End Outcomes.

(** ** The partition and the command as the graph grows *)

Section Growth.
Import Py Util Compiler Spec.

(** The five lists of [_get_nodes_from_graph] together hold the nodes of
    the graph, each one once: nothing is lost and nothing is repeated. *)
Theorem partition_is_a_permutation (graph : list node) :
  exists ins opts fs gs outs,
    _get_nodes_from_graph graph = Ok (ins, opts, fs, gs, outs)
    /\ Permutation graph
         (map NInput ins ++ map NOption opts ++ map NFilter fs
          ++ map NGlobal gs ++ map NOutput outs)%list.
Proof.
  exists (input_nodes_of graph), (option_nodes_of graph),
    (filter_nodes_of graph), (global_nodes_of graph), (output_nodes_of graph).
  split; [apply get_nodes_from_graph_eq|].
  induction graph as [|n graph IH]; [constructor|].
  destruct n;
    cbn [input_nodes_of option_nodes_of filter_nodes_of global_nodes_of
         output_nodes_of flat_map app map];
    fold (input_nodes_of graph) (option_nodes_of graph)
         (filter_nodes_of graph) (global_nodes_of graph)
         (output_nodes_of graph).
  - now constructor.
  - rewrite app_assoc. apply Permutation_cons_app.
    now rewrite <- app_assoc.
  - rewrite !app_assoc. apply Permutation_cons_app.
    now rewrite <- !app_assoc.
  - rewrite (app_assoc (map NInput _)), (app_assoc _ (map NFilter _)).
    apply Permutation_cons_app. now rewrite <- !app_assoc.
  - rewrite app_assoc. apply Permutation_cons_app.
    now rewrite <- app_assoc.
Qed.

Lemma nodes_of_snoc_output (graph : list node) (o : OutputNode.t) :
  input_nodes_of (graph ++ [NOutput o]) = input_nodes_of graph
  /\ option_nodes_of (graph ++ [NOutput o]) = option_nodes_of graph
  /\ filter_nodes_of (graph ++ [NOutput o]) = filter_nodes_of graph
  /\ global_nodes_of (graph ++ [NOutput o]) = global_nodes_of graph
  /\ output_nodes_of (graph ++ [NOutput o]) = (output_nodes_of graph ++ [o])%list.
Proof.
  unfold input_nodes_of, option_nodes_of, filter_nodes_of, global_nodes_of,
    output_nodes_of.
  rewrite !flat_map_app. cbn [flat_map app]. now rewrite !app_nil_r.
Qed.

(** Appending an OutputNode to a graph extends the command at its end
    and changes nothing before: by the [-map]/name pairs of the node in
    the filter path, by its name alone in the direct path; a graph that
    does not compile still does not. *)
Theorem command_after_appending_an_output
    (graph : list node) (o : OutputNode.t) (cmd : string) :
  _get_command_from_graph (graph ++ [NOutput o]) cmd
  = (command <- _get_command_from_graph graph cmd ;;
     Ok (command
         ++ match filter_nodes_of graph with
            | [] => name_segment o
            | _ :: _ => join (map_pairs o)
            end)).
Proof.
  destruct (nodes_of_snoc_output graph o) as (Hi & Hop & Hf & Hg & Ho).
  destruct (get_command_cases graph cmd) as [[Hall _]|[Hsome Hraise]].
  - destruct (filter_nodes_of graph) as [|f fs] eqn:E.
    + unfold _get_command_from_graph.
      rewrite !get_nodes_from_graph_eq. unfold partition_of. cbn [bind].
      rewrite Hi, Hf, Ho, E. cbn [length Nat.eqb bind].
      rewrite !no_filter_command_eq, map_app, join_app. cbn [map].
      rewrite join_cons. change (join []) with EmptyString.
      now rewrite string_app_nil_r, !string_app_assoc.
    + assert (Hne : f :: fs <> []) by discriminate.
      destruct (exists_last Hne) as (others & last_ & Hfs).
      rewrite <- E in Hall. rewrite Hfs in E.
      assert (Hall' : Forall (fun n => FilterNode.params n <> [])
                        (filter_nodes_of (graph ++ [NOutput o]))).
      { rewrite Hf, Hfs, <- E. exact Hall. }
      assert (E' : filter_nodes_of (graph ++ [NOutput o])
                   = (others ++ [last_])%list) by (rewrite Hf; exact Hfs).
      rewrite (get_command_filter_path cmd _ others last_ E' Hall').
      rewrite (get_command_filter_path cmd graph others last_ E Hall).
      cbn [bind]. rewrite Ho, flat_map_app, join_app.
      cbn [flat_map]. rewrite app_nil_r.
      unfold filter_path_head. rewrite Hi, Hop, Hg.
      now rewrite !string_app_assoc.
  - rewrite Hraise. cbn [bind].
    destruct (get_command_cases (graph ++ [NOutput o]) cmd)
      as [[Hall _]|[_ Hraise']]; [|exact Hraise'].
    exfalso. rewrite Hf in Hall.
    apply Exists_exists in Hsome. destruct Hsome as (n & Hin & Hn).
    rewrite Forall_forall in Hall. now apply (Hall n Hin).
Qed.



(** In the filter path the command starts with the program name passed
    as [cmd], and the rest of it does not depend on [cmd]. *)
Theorem filter_path_starts_with_cmd (graph : list node) :
  filter_nodes_of graph <> [] ->
  Forall (fun n => FilterNode.params n <> []) (filter_nodes_of graph) ->
  exists rest,
    forall cmd, _get_command_from_graph graph cmd = Ok (cmd ++ rest).
Proof.
  intros Hne Hall.
  destruct (exists_last Hne) as (others & last_ & Hfs).
  exists (join (map input_segment (input_nodes_of graph)
                ++ map option_segment (option_nodes_of graph)
                ++ [(" -y -filter_complex " ++ dquote)%string]
                ++ map statement_of others
                ++ map get_str_from_global (global_nodes_of graph)
                ++ [replace semicolon EmptyString (statement_of last_)])%list
          ++ dquote ++ join (flat_map map_pairs (output_nodes_of graph))).
  intros cmd.
  rewrite (get_command_filter_path cmd graph others last_ Hfs Hall).
  unfold filter_path_head. cbn [app]. rewrite join_cons.
  now rewrite string_app_assoc.
Qed.

Lemma filter_path_starts_with_cmd_witness :
  filter_nodes_of scenario_A <> []
  /\ Forall (fun n => FilterNode.params n <> []) (filter_nodes_of scenario_A)
  /\ exists rest,
       forall cmd, _get_command_from_graph scenario_A cmd = Ok (cmd ++ rest).
Proof.
  assert (Hne : filter_nodes_of scenario_A <> []) by discriminate.
  assert (Hall : Forall (fun n => FilterNode.params n <> [])
                   (filter_nodes_of scenario_A)).
  { repeat constructor; discriminate. }
  split; [exact Hne|]. split; [exact Hall|].
  exact (filter_path_starts_with_cmd scenario_A Hne Hall).
Defined.

Lemma last_statement_without_inner_semicolon_witness :
  FilterNode.params scenario_A_filter <> []
  /\ NoDup (keys (FilterNode.params scenario_A_filter))
  /\ count_char semicolon (statement_body scenario_A_filter) = 0
  /\ replace semicolon EmptyString (statement_of scenario_A_filter)
     = "[0:v] scale=w=320:h=240 [v1]".
Proof.
  assert (Hne : FilterNode.params scenario_A_filter <> []) by discriminate.
  assert (Hnd : NoDup (keys (FilterNode.params scenario_A_filter))).
  { repeat constructor; simpl; intuition discriminate. }
  assert (Hnone : count_char semicolon (statement_body scenario_A_filter) = 0)
    by reflexivity.
  split; [exact Hne|]. split; [exact Hnd|]. split; [exact Hnone|].
  exact (last_statement_without_inner_semicolon scenario_A_filter Hne Hnd Hnone).
Defined.

End Growth.


(** ** The builders: labels, registry and counter *)

Section BuilderFacts.
Import Py Compiler Builder Spec.
Context {platform : Platform}.

Lemma add_labels_eq {N} (add : N -> Label.t -> N) (v : value) :
  forall node_,
    add_labels add node_ v
    = (ls <- caller_labels v ;; Ok (fold_left add ls node_)).
Proof.
  destruct v as [| | | |xs| |]; intros node_;
    try (cbn [add_labels caller_labels];
         match goal with
         | |- context [_get_label_param ?v] =>
             destruct (_get_label_param v); reflexivity
         end).
  cbn [add_labels caller_labels].
  revert node_. induction xs as [|x xs IH]; intros node_; simpl.
  - reflexivity.
  - destruct (_get_label_param x) as [l|e]; simpl; [|reflexivity].
    rewrite IH. destruct (labels_of xs); reflexivity.
Qed.

Lemma fold_output_add_input (ls : list Label.t) :
  forall n,
    fold_left OutputNode.add_input ls n
    = OutputNode.OutputNode (OutputNode.name n) (OutputNode.inputs n ++ ls).
Proof.
  induction ls as [|l ls IH]; intros [name inputs]; simpl.
  - now rewrite app_nil_r.
  - rewrite IH. simpl. unfold append. now rewrite <- app_assoc.
Qed.

Lemma fold_global_add_input (ls : list Label.t) :
  forall n,
    fold_left GlobalNode.add_input ls n
    = GlobalNode.GlobalNode (GlobalNode.inputs n ++ ls) (GlobalNode.outputs n)
        (GlobalNode.args n).
Proof.
  induction ls as [|l ls IH]; intros [inputs outputs args]; simpl.
  - now rewrite app_nil_r.
  - rewrite IH. simpl. unfold append. now rewrite <- app_assoc.
Qed.

Lemma fold_global_add_output (ls : list Label.t) :
  forall n,
    fold_left GlobalNode.add_output ls n
    = GlobalNode.GlobalNode (GlobalNode.inputs n) (GlobalNode.outputs n ++ ls)
        (GlobalNode.args n).
Proof.
  induction ls as [|l ls IH]; intros [inputs outputs args]; simpl.
  - now rewrite app_nil_r.
  - rewrite IH. simpl. unfold append. now rewrite <- app_assoc.
Qed.

Lemma getitem_contains {V} (d : dict V) (k : string) (v : V) :
  getitem d k = Ok v -> contains d k = true.
Proof.
  induction d as [|[k' v'] d IH]; simpl; [discriminate|].
  destruct (String.eqb k' k); [reflexivity|exact IH].
Qed.

Lemma output_eq
    (a : value) (rest : list value) (kwargs : dict atom) (name : atom)
    (w : World) :
  _check_arg_type (a :: rest) = true ->
  getitem kwargs "name" = Ok name ->
  output (a :: rest) kwargs w
  = match caller_labels a with
    | Ok ls =>
        (Ok (Some (OutputNode.OutputNode name ls)),
         with_node w (NOutput (OutputNode.OutputNode name ls)))
    | Raise e => (Raise e, w)
    end.
Proof.
  intros Hcheck Hname. unfold output.
  rewrite Hcheck, (getitem_contains _ _ _ Hname), Hname.
  cbn [negb]. unfold bindM, lift. cbn [index nth_error].
  rewrite add_labels_eq. destruct (caller_labels a) as [ls|e]; cbn [bind].
  - rewrite fold_output_add_input. reflexivity.
  - reflexivity.
Qed.

(** [output] on a caller that passes the type check, with a [name]: the
    node gets one input label per element of a list caller, in order
    (one label for any other caller), and is appended to the registry;
    the first element without a label makes the call fail and the
    registry stay as it was. *)
Theorem output_builds_its_inputs_in_order
    (a : value) (rest : list value) (kwargs : dict atom) (name : atom)
    (w : World) :
  _check_arg_type (a :: rest) = true ->
  getitem kwargs "name" = Ok name ->
  output (a :: rest) kwargs w
  = match caller_labels a with
    | Ok ls =>
        (Ok (Some (OutputNode.OutputNode name ls)),
         with_node w (NOutput (OutputNode.OutputNode name ls)))
    | Raise e => (Raise e, w)
    end.
Proof. exact (output_eq a rest kwargs name w). Qed.

Lemma output_builds_its_inputs_in_order_witness :
  _check_arg_type [VList [VStr "v1"; VNode (NFilter scenario_A_filter)]] = true
  /\ getitem [("name", AStr "out.mp4")] "name" = Ok (AStr "out.mp4")
  /\ output [VList [VStr "v1"; VNode (NFilter scenario_A_filter)]]
       [("name", AStr "out.mp4")] world0
     = (Ok (Some (OutputNode.OutputNode (AStr "out.mp4")
                    [Label.Label "v1"; Label.Label "v1"])),
        with_node world0
          (NOutput (OutputNode.OutputNode (AStr "out.mp4")
                      [Label.Label "v1"; Label.Label "v1"]))).
Proof.
  split; [reflexivity|]. split; [reflexivity|].
  exact (output_builds_its_inputs_in_order
           (VList [VStr "v1"; VNode (NFilter scenario_A_filter)]) []
           [("name", AStr "out.mp4")] (AStr "out.mp4") world0 eq_refl eq_refl).
Defined.

(** An OptionNode passes [_check_arg_type], but it has no label: [output]
    called on one (with a [name]) fails with the [TypeMissing] of
    [_get_label_param] and appends nothing. *)
Theorem output_on_an_option_node_fails
    (o : OptionNode.t) (rest : list value) (kwargs : dict atom) (name : atom)
    (w : World) :
  getitem kwargs "name" = Ok name ->
  _check_arg_type (VNode (NOption o) :: rest) = true
  /\ output (VNode (NOption o) :: rest) kwargs w
     = (Raise (TypeMissing "Filter requires an filter or input type argument"), w).
Proof.
  intros Hname. split; [reflexivity|].
  now rewrite (output_eq (VNode (NOption o)) rest kwargs name w eq_refl Hname).
Qed.

Lemma output_on_an_option_node_witness :
  getitem [("name", AStr "out.mp4")] "name" = Ok (AStr "out.mp4")
  /\ output [VNode (NOption (OptionNode.OptionNode (AStr "-ss") (AInt 5)))]
       [("name", AStr "out.mp4")] world0
     = (Raise (TypeMissing "Filter requires an filter or input type argument"),
        world0).
Proof.
  split; [reflexivity|].
  exact (proj2 (output_on_an_option_node_fails
                  (OptionNode.OptionNode (AStr "-ss") (AInt 5)) []
                  [("name", AStr "out.mp4")] (AStr "out.mp4") world0 eq_refl)).
Defined.


Lemma arg_eq
    (caller : value) (args : atom) (outputs inputs : value) (w : World) :
  arg caller args outputs inputs w
  = match caller_labels (if is_not_None inputs then inputs else caller) with
    | Raise e => (Raise e, w)
    | Ok ins =>
        match caller_labels outputs with
        | Raise e => (Raise e, w)
        | Ok outs =>
            (Ok (GlobalNode.GlobalNode ins outs args),
             with_node w (NGlobal (GlobalNode.GlobalNode ins outs args)))
        end
    end.
Proof.
  unfold arg, bindM, lift.
  replace (if is_not_None inputs
           then add_labels GlobalNode.add_input
                  (GlobalNode.GlobalNode [] [] args) inputs
           else add_labels GlobalNode.add_input
                  (GlobalNode.GlobalNode [] [] args) caller)
    with (add_labels GlobalNode.add_input (GlobalNode.GlobalNode [] [] args)
            (if is_not_None inputs then inputs else caller))
    by (destruct (is_not_None inputs); reflexivity).
  rewrite add_labels_eq.
  destruct (caller_labels (if is_not_None inputs then inputs else caller))
    as [ins|e]; cbn [bind]; [|reflexivity].
  rewrite add_labels_eq, fold_global_add_input.
  destruct (caller_labels outputs) as [outs|e]; cbn [bind]; [|reflexivity].
  rewrite fold_global_add_output. reflexivity.
Qed.

(** [arg] takes the input labels from [inputs] when it is given and from
    the caller otherwise, the output labels from [outputs], each in
    order; it appends the node when every label exists and otherwise
    fails and leaves the registry as it was. *)
Theorem arg_builds_its_labels_in_order
    (caller : value) (args : atom) (outputs inputs : value) (w : World) :
  arg caller args outputs inputs w
  = match caller_labels (if is_not_None inputs then inputs else caller) with
    | Raise e => (Raise e, w)
    | Ok ins =>
        match caller_labels outputs with
        | Raise e => (Raise e, w)
        | Ok outs =>
            (Ok (GlobalNode.GlobalNode ins outs args),
             with_node w (NGlobal (GlobalNode.GlobalNode ins outs args)))
        end
    end.
Proof. exact (arg_eq caller args outputs inputs w). Qed.

End BuilderFacts.

(** ** The registry under the builders and [run] *)

Section Registry.
Import Py Compiler Builder Spec.
Context {platform : Platform}.

Ltac break_matches :=
  repeat match goal with
         | |- context [match ?x with _ => _ end] =>
             lazymatch x with
             | context [match _ with _ => _ end] => fail
             | _ => destruct x; cbn
             end
         end.

Lemma registry_steps (w : World) :
  (forall args name, registry_step NInput 1 w (input args name w))
  /\ (forall args kwargs, registry_step NFilter 0 w (filter args kwargs w))
  /\ (forall args kwargs,
        match fst (output args kwargs w) with
        | Ok (Some n) => registry_step NOutput 0 w (Ok n, snd (output args kwargs w))
        | Ok None => snd (output args kwargs w) = w
        | Raise _ => snd (output args kwargs w) = w
        end)
  /\ (forall caller args outputs inputs,
        registry_step NGlobal 0 w (arg caller args outputs inputs w))
  /\ (forall args tag name out,
        registry_step NOption 0 w (option_ args tag name out w)).
Proof.
  repeat split.
  - unfold input. destruct name; reflexivity.
  - unfold input. destruct name; reflexivity.
  - unfold filter, FilterNode_init, Label_auto, gen_label, bindM, lift, raise,
      ret, s_add.
    break_matches; try reflexivity; now rewrite Nat.add_0_r.
  - unfold filter, FilterNode_init, Label_auto, gen_label, bindM, lift, raise,
      ret, s_add.
    break_matches; reflexivity.
  - intros args kwargs. unfold output, bindM, lift, raise, ret, s_add.
    break_matches; try reflexivity;
      unfold registry_step; cbn; now rewrite Nat.add_0_r.
  - rewrite arg_eq.
    break_matches; try reflexivity; now rewrite Nat.add_0_r.
  - rewrite arg_eq. break_matches; reflexivity.
  - unfold option_, bindM, lift, ret, s_add.
    break_matches; try reflexivity; now rewrite Nat.add_0_r.
  - unfold option_, bindM, lift, ret, s_add. break_matches; reflexivity.
Qed.

(** Every builder treats the registry in the same way: a call that
    succeeds appends the node it returns at the end (and [input] alone
    advances the input counter, by one), a call that fails leaves the
    registry as it was, and [output] without a [name] returns [None] and
    appends nothing; no builder reads the graph or starts a process. *)
Theorem builders_only_append (w : World) :
  (forall args name, registry_step NInput 1 w (input args name w))
  /\ (forall args kwargs, registry_step NFilter 0 w (filter args kwargs w))
  /\ (forall args kwargs,
        match fst (output args kwargs w) with
        | Ok (Some n) => registry_step NOutput 0 w (Ok n, snd (output args kwargs w))
        | Ok None => snd (output args kwargs w) = w
        | Raise _ => snd (output args kwargs w) = w
        end)
  /\ (forall caller args outputs inputs,
        registry_step NGlobal 0 w (arg caller args outputs inputs w))
  /\ (forall args tag name out,
        registry_step NOption 0 w (option_ args tag name out w)).
Proof. exact (registry_steps w). Qed.

End Registry.

(** ** The input counter and [run] *)

Section CounterAndRun.
Import Py Compiler Builder Spec.
Context {platform : Platform}.

Lemma input_nodes_of_append (nodes_ : list node) (n : node) :
  length (input_nodes_of (append nodes_ n))
  = length (input_nodes_of nodes_)
    + match n with NInput _ => 1 | _ => 0 end.
Proof.
  unfold append, input_nodes_of. rewrite flat_map_app, length_app.
  destruct n; reflexivity.
Qed.

Lemma registry_step_counts {A} (inj : A -> node) (bump : nat)
    (w : World) (out : result A * World) :
  (forall a, match inj a with NInput _ => 1 | _ => 0 end = bump) ->
  registry_step inj bump w out ->
  counts_inputs w -> counts_inputs (snd out).
Proof.
  intros Hbump [Hstep _] Hw. unfold counts_inputs in *.
  destruct (fst out) as [a|e]; rewrite Hstep; [|exact Hw].
  cbn [nodes count]. rewrite input_nodes_of_append, Hbump. now rewrite Hw.
Qed.

Lemma after_call_counts (w : World) (c : call) :
  counts_inputs w -> counts_inputs (after_call w c).
Proof.
  intros Hw.
  destruct (registry_steps w) as (Hin & Hfi & Hout &Harg & Hopt).
  destruct c as [args name|args kwargs|args kwargs|caller args outputs inputs
                |args tag name out]; cbn [after_call].
  - now apply (registry_step_counts NInput 1 w _ (fun _ => eq_refl) (Hin args name)).
  - now apply (registry_step_counts NFilter 0 w _ (fun _ => eq_refl)
                 (Hfi args kwargs)).
  - specialize (Hout args kwargs).
    destruct (fst (output args kwargs w)) as [[n|]|e].
    + now apply (registry_step_counts NOutput 0 w (Ok n, snd (output args kwargs w))
                   (fun _ => eq_refl) Hout).
    + now rewrite Hout.
    + now rewrite Hout.
  - now apply (registry_step_counts NGlobal 0 w _ (fun _ => eq_refl)
                 (Harg caller args outputs inputs)).
  - now apply (registry_step_counts NOption 0 w _ (fun _ => eq_refl)
                 (Hopt args tag name out)).
Qed.

Lemma after_calls_counts (calls : list call) (w : World) :
  counts_inputs w -> counts_inputs (fold_left after_call calls w).
Proof.
  revert w. induction calls as [|c calls IH]; intros w Hw; [exact Hw|].
  cbn [fold_left]. apply IH. now apply after_call_counts.
Qed.

Lemma input_counter_counts_the_inputs_aux (calls : list call) :
  count (s (after_calls calls))
  = length (input_nodes_of (nodes (s (after_calls calls)))).
Proof.
  apply (after_calls_counts calls world0). reflexivity.
Qed.

(** After any sequence of builder calls from the initial registry,
    failed calls included, the input counter is the number of InputNodes
    in the registry. *)
Theorem input_counter_counts_the_inputs (calls : list call) :
  counts_inputs (after_calls calls).
Proof. exact (input_counter_counts_the_inputs_aux calls). Qed.

(** After any sequence of builder calls, [input] with a name gives the
    new InputNode the index that is the number of InputNodes created
    before it, whatever other nodes were created in between, and appends
    it. *)
Theorem input_index_is_the_number_of_earlier_inputs
    (calls : list call) (args : list value) (name : atom) :
  name <> ANone ->
  input args name (after_calls calls)
  = (Ok (InputNode_init name
           (length (input_nodes_of (nodes (s (after_calls calls)))))),
     {| s := {| nodes :=
                  append (nodes (s (after_calls calls)))
                    (NInput (InputNode_init name
                               (length (input_nodes_of
                                          (nodes (s (after_calls calls)))))));
                count := count (s (after_calls calls)) + 1 |};
        draws := draws (after_calls calls);
        trace := trace (after_calls calls) |}).
Proof.
  intros Hname. rewrite <- (input_counter_counts_the_inputs_aux calls).
  destruct name; [congruence|reflexivity|reflexivity].
Qed.

Lemma run_eq (o : OutputNode.t) (w : World) :
  run (VNode (NOutput o)) w
  = match _get_command_from_graph (nodes (s w)) "ffmpeg" with
    | Raise e => (Raise e, with_events w [GraphRead])
    | Ok command =>
        (if Z.eqb (snd (communicate command)) 0
         then Ok (fst (communicate command), ANone)
         else Raise (Error "ffmpeg" (fst (communicate command)) ANone),
         with_events w [GraphRead; Popen command])
    end.
Proof.
  unfold run, bindM, lift, s_graph, popen, raise, ret, with_events, append.
  cbn [isinstance_OutputNode negb nodes s draws trace].
  destruct (_get_command_from_graph (nodes (s w)) "ffmpeg") as [command|e];
    [|reflexivity].
  destruct (communicate command) as [out code]. cbn [fst snd].
  rewrite <- app_assoc. destruct (Z.eqb code 0); reflexivity.
Qed.

(** [run] on an OutputNode, when the registry compiles: the process is
    started once, on the compiled command, after the registry was read;
    exit status 0 returns the captured output with no error stream, any
    other status raises [Error] with the program name and the output;
    either way the registry is as before. *)
Theorem run_reports_the_exit_status
    (o : OutputNode.t) (w : World) (command out : string) (code : Z) :
  _get_command_from_graph (nodes (s w)) "ffmpeg" = Ok command ->
  communicate command = (out, code) ->
  run (VNode (NOutput o)) w
  = (if Z.eqb code 0 then Ok (out, ANone) else Raise (Error "ffmpeg" out ANone),
     with_events w [GraphRead; Popen command]).
Proof.
  intros Hcmd Hout. now rewrite run_eq, Hcmd, Hout.
Qed.

(** When a FilterNode of the registry has no parameters, [run] fails
    with the [IndexError] of the compiler after reading the registry,
    and no process is started. *)
Theorem run_starts_no_process_when_compilation_fails
    (o : OutputNode.t) (w : World) :
  Exists (fun n => FilterNode.params n = []) (filter_nodes_of (nodes (s w))) ->
  run (VNode (NOutput o)) w = (Raise IndexError, with_events w [GraphRead]).
Proof.
  intros Hsome. rewrite run_eq.
  destruct (get_command_cases (nodes (s w)) "ffmpeg") as [[Hall _]|[_ Hraise]].
  - exfalso. apply Exists_exists in Hsome. destruct Hsome as (n & Hin & Hn).
    rewrite Forall_forall in Hall. now apply (Hall n Hin).
  - now rewrite Hraise.
Qed.

(** Whatever the caller and the outcome, [run] leaves the registry and
    the input counter as they were, reads the registry at most once and
    starts at most one process, after the read. *)
Theorem run_leaves_the_registry (caller : value) (w : World) :
  s (snd (run caller w)) = s w
  /\ draws (snd (run caller w)) = draws w
  /\ (trace (snd (run caller w)) = trace w
      \/ trace (snd (run caller w)) = (trace w ++ [GraphRead])%list
      \/ exists command,
           trace (snd (run caller w))
           = (trace w ++ [GraphRead; Popen command])%list).
Proof.
  destruct (isinstance_OutputNode caller) eqn:E.
  - destruct caller as [| | | | | |[]]; try discriminate E.
    rewrite run_eq.
    destruct (_get_command_from_graph (nodes (s w)) "ffmpeg") as [command|e];
      cbn [snd with_events s draws trace]; repeat split; eauto.
  - unfold run. rewrite E. cbn. repeat split; auto.
Qed.

End CounterAndRun.

(** ** The builder and [run] statements at concrete calls *)

Section MoreCalls.
Import Py Compiler Builder Spec.


Lemma input_index_witness :
  AStr "b.mp3" <> ANone
  /\ @input demo_platform [] (AStr "b.mp3")
       (@after_calls demo_platform
          [CallInput [] (AStr "a.mp4");
           CallOption [] (AStr "-ss") (AInt 5) (VStr "x");
           CallOutput [VInt 42] [("name", AStr "out.mp4")]])
     = (Ok (InputNode.InputNode (AStr "b.mp3") "1:v"),
        {| s := {| nodes :=
                     [NInput scenario_A_input;
                      NOption (OptionNode.OptionNode (AStr "-ss") (AInt 5));
                      NInput (InputNode.InputNode (AStr "b.mp3") "1:v")];
                   count := 2 |};
           draws := 0; trace := [] |}).
Proof.
  assert (H : AStr "b.mp3" <> ANone) by discriminate.
  split; [exact H|].
  exact (@input_index_is_the_number_of_earlier_inputs demo_platform
           [CallInput [] (AStr "a.mp4");
            CallOption [] (AStr "-ss") (AInt 5) (VStr "x");
            CallOutput [VInt 42] [("name", AStr "out.mp4")]]
           [] (AStr "b.mp3") H).
Defined.

Lemma run_reports_the_exit_status_witness :
  _get_command_from_graph (nodes (s scenario_A_world)) "ffmpeg"
  = Ok ("ffmpeg -i a.mp4  -y -filter_complex "
        ++ dquote ++ "[0:v] scale=w=320:h=240 [v1]" ++ dquote
        ++ " -map " ++ dquote ++ "[v1]" ++ dquote ++ " out.mp4 ")
  /\ @communicate failing_platform
       ("ffmpeg -i a.mp4  -y -filter_complex "
        ++ dquote ++ "[0:v] scale=w=320:h=240 [v1]" ++ dquote
        ++ " -map " ++ dquote ++ "[v1]" ++ dquote ++ " out.mp4 ")
     = ("Unrecognized option", 1%Z)
  /\ @run failing_platform (VNode (NOutput scenario_A_output)) scenario_A_world
     = (Raise (Error "ffmpeg" "Unrecognized option" ANone),
        with_events scenario_A_world
          [GraphRead;
           Popen ("ffmpeg -i a.mp4  -y -filter_complex "
                  ++ dquote ++ "[0:v] scale=w=320:h=240 [v1]" ++ dquote
                  ++ " -map " ++ dquote ++ "[v1]" ++ dquote ++ " out.mp4 ")]).
Proof.
  split; [reflexivity|]. split; [reflexivity|].
  exact (@run_reports_the_exit_status failing_platform scenario_A_output
           scenario_A_world _ _ _ eq_refl eq_refl).
Defined.

Lemma run_starts_no_process_witness :
  Exists (fun n => FilterNode.params n = [])
    (filter_nodes_of (nodes (s bare_world)))
  /\ @run demo_platform (VNode (NOutput scenario_A_output)) bare_world
     = (Raise IndexError, with_events bare_world [GraphRead]).
Proof.
  assert (H : Exists (fun n => FilterNode.params n = [])
                (filter_nodes_of (nodes (s bare_world)))).
  { apply Exists_cons_tl. apply Exists_cons_hd. reflexivity. }
  split; [exact H|].
  exact (@run_starts_no_process_when_compilation_fails demo_platform
           scenario_A_output bare_world H).
Defined.

End MoreCalls.
